(** * UMD graduation planner: the plan generation engine

    A shallow embedding of [src/pages/api/generate-plan.ts].  Every
    function of that file has a counterpart of the same name below.
    The code around the engine follows it: [validateGraduationPlan] of the
    validation endpoint, [escapeCSV] of the export endpoint, the course
    endpoint with its cache (module [CourseApi]) and the functions
    [getRequirementColor], [addSemester] and [removeSemester] of the plan
    editor (module [GradPlan]).

    Conventions of the embedding.
    - JavaScript numbers that the code only ever uses as integers (years,
      credits, the credit cap) are [Z]; [NaN], which [parseInt] can return,
      is [None] in an [option Z].  Fractions and integers beyond the exact
      range of a double are outside the model.
    - [undefined] is [None]: an absent request field, an absent
      [req.courses], the season [seasons[-1]].
    - [Set<string>] is [gset string]; the object [courseInfo], used as a
      dictionary from course identifiers to records, is a [gmap string _]
      (identifiers are assumed not to collide with the property names that
      every JavaScript object inherits, such as [constructor]: for such an
      identifier without a record the code reads the inherited value and
      throws where the model skips the course; whenever the code returns
      a plan, it is the plan of the model).
    - The request body has the fields of [GeneratePlanRequest] with their
      types; only the terms and the lists of majors and minors may be
      absent.
    - The network is a function [fetch] from course identifiers to the
      outcome of the HTTP request; the [await]s are sequential, so the
      asynchronous functions are ordinary functions of that outcome.
    - A thrown exception is the [Throw] case of the result type [Exn].
    - The cache of the course endpoint, a [Map] kept between requests, is
      passed in and out of the handler; the readings of [Date.now()] are
      inputs.
    - The 32-bit integers of the bit operations are [Z] with the wrap
      written out. *)

From Stdlib Require Import ZArith Lia Ascii.
From stdpp Require Import base option list strings pretty gmap sets.
From Equations Require Import Equations.

Local Open Scope Z_scope.

(** ** JavaScript string primitives used by the code *)

Module JS.

Definition code (c : ascii) : Z := Z.of_nat (nat_of_ascii c).

Definition isUpper (c : ascii) : bool := (65 <=? code c) && (code c <=? 90).
Definition isDigit (c : ascii) : bool := (48 <=? code c) && (code c <=? 57).

(** White space, restricted to the one-byte characters: tab, line feed,
    vertical tab, form feed, carriage return and space. *)
Definition isSpace (c : ascii) : bool :=
  ((9 <=? code c) && (code c <=? 13)) || (code c =? 32).

Definition lowerChar (c : ascii) : ascii :=
  if isUpper c then ascii_of_nat (nat_of_ascii c + 32) else c.

(** [s.toLowerCase()] on the letters A-Z; other bytes are kept. *)
Fixpoint toLowerCase (s : string) : string :=
  match s with
  | EmptyString => EmptyString
  | String c r => String (lowerChar c) (toLowerCase r)
  end.

(** [s.split(' ')]: the pieces between single spaces; never empty. *)
Fixpoint split_space (s : string) : list string :=
  match s with
  | EmptyString => [EmptyString]
  | String c r =>
      if Ascii.eqb c " "%char then EmptyString :: split_space r
      else match split_space r with
           | [] => [String c EmptyString]
           | piece :: pieces => String c piece :: pieces
           end
  end.

(** The value of a character as a digit in a radix up to 36. *)
Definition digitOf (c : ascii) : option Z :=
  let n := code c in
  if (48 <=? n) && (n <=? 57) then Some (n - 48)
  else if (97 <=? n) && (n <=? 122) then Some (n - 87)
  else if (65 <=? n) && (n <=? 90) then Some (n - 55)
  else None.

(** The longest prefix of digits of the radix, as a number; [acc] is
    [None] as long as no digit has been read. *)
Fixpoint digitsVal (radix : Z) (s : string) (acc : option Z) : option Z :=
  match s with
  | EmptyString => acc
  | String c r =>
      match digitOf c with
      | Some d =>
          if d <? radix
          then digitsVal radix r (Some (radix * default 0 acc + d))
          else acc
      | None => acc
      end
  end.

Fixpoint skipSpaces (s : string) : string :=
  match s with
  | String c r => if isSpace c then skipSpaces r else s
  | EmptyString => s
  end.

Definition unsigned (s : string) : option Z :=
  match s with
  | String "0" (String "x" r) | String "0" (String "X" r) => digitsVal 16 r None
  | _ => digitsVal 10 s None
  end.

(** [parseInt(x)] without a radix: leading white space, a sign, an
    optional [0x], then digits; [None] is [NaN].  [undefined] is first
    turned into the string ["undefined"]. *)
Definition parseInt (x : option string) : option Z :=
  match skipSpaces (default "undefined" x) with
  | String "-" r => Z.opp <$> unsigned r
  | String "+" r => unsigned r
  | s => unsigned s
  end.

(** [x || d] for a number [x]: [d] when [x] is [NaN] or [0]. *)
Definition orNum (x : option Z) (d : Z) : Z :=
  match x with
  | Some n => if n =? 0 then d else n
  | None => d
  end.

(** [x || d] for a string [x]: [d] when [x] is absent or empty. *)
Definition orStr (x : option string) (d : string) : string :=
  match x with
  | Some EmptyString | None => d
  | Some s => s
  end.

End JS.

(** ** Data model (the interfaces at the top of the source file) *)

Record CompletedCourse := {
  cc_course_id : string;
  cc_credits : Z
}.

(** An element of [requirements: any[]]: the code reads [req.category] and
    [req.courses], the latter possibly absent. *)
Record Requirement := {
  category : string;
  courses : option (list string)
}.

Record Major := {
  major_code : string;
  major_name : string;
  major_requirements : list Requirement
}.

Record Minor := {
  minor_code : string;
  minor_name : string;
  minor_requirements : list Requirement
}.

(** [startingSemester] and [graduationTarget] are [None] when the body
    holds no string there. *)
Record GeneratePlanRequest := {
  majors : option (list Major);
  minors : option (list Minor);
  completedCourses : list CompletedCourse;
  startingSemester : option string;
  graduationTarget : option string;
  maxCreditsPerSemester : Z
}.

Record PlannedCourse := {
  pc_course_id : string;
  pc_name : string;
  pc_credits : Z;
  pc_prerequisites : list string;
  pc_satisfies : list string
}.

Record SemesterPlan := {
  sp_semester : option string;
  sp_year : Z;
  sp_courses : list PlannedCourse;
  sp_totalCredits : Z
}.

Record GraduationPlan := {
  gp_majors : list Major;
  gp_minors : list Minor;
  gp_semesters : list SemesterPlan;
  gp_totalCredits : Z;
  gp_completionDate : string;
  gp_warnings : list string;
  gp_unmetRequirements : list string
}.

(** The record built by [fetchCourseInformation] for one course. *)
Record CourseInfo := {
  ci_course_id : string;
  ci_name : string;
  ci_credits : Z;
  ci_prerequisites : list string;
  ci_description : string
}.

(** The entries pushed by [planCourseSequence]: a planned course together
    with the key of the semester it was planned for. *)
Record SequencedCourse := {
  sc_course_id : string;
  sc_name : string;
  sc_credits : Z;
  sc_prerequisites : list string;
  sc_satisfies : list string;
  sc_plannedSemester : string
}.

(** ** Exceptions *)

Inductive Exn (A : Type) : Type :=
| Ok (a : A)
| Throw (message : string).
Arguments Ok {A} a.
Arguments Throw {A} message.

Definition bindExn {A B} (m : Exn A) (k : A → Exn B) : Exn B :=
  match m with
  | Ok a => k a
  | Throw e => Throw e
  end.

Notation "'try!' x ← m ; k" := (bindExn m (λ x, k))
  (at level 20, x name, m at level 100, k at level 200, only parsing).

(** ** parseSemester *)

Record ParsedSemester := {
  ps_season : string;
  ps_year : option Z
}.

(** [semesterString.split(' ')] throws a TypeError when the argument is not
    a string; the first piece always exists, the second may not. *)
Definition parseSemester (semesterString : option string) : Exn ParsedSemester :=
  match semesterString with
  | None => Throw "TypeError"
  | Some s =>
      let pieces := JS.split_space s in
      let season := default EmptyString (head pieces) in
      let yearStr := pieces !! 1%nat in
      Ok {| ps_season := JS.toLowerCase season; ps_year := JS.parseInt yearStr |}
  end.

(** ** generateSemesterSequence *)

Record Semester := {
  season : option string;
  year : Z
}.

Definition seasons : list string := ["spring"; "summer"; "fall"].

(** [seasons.indexOf(s)]. *)
Definition seasons_indexOf (s : string) : Z :=
  if String.eqb s "spring" then 0
  else if String.eqb s "summer" then 1
  else if String.eqb s "fall" then 2
  else -1.

(** [seasons[i]]. *)
Definition seasons_at (i : Z) : option string :=
  if i <? 0 then None else seasons !! Z.to_nat i.

(** The condition of the [while] loop. *)
Definition inRange (currentYear currentSeasonIndex endYear endIndex : Z) : bool :=
  (currentYear <? endYear)
  || ((currentYear =? endYear) && (currentSeasonIndex <=? endIndex)).

(** The [while] loop, from the state [(currentYear, currentSeasonIndex)];
    the result is what the loop still pushes.  It terminates because each
    iteration moves one step towards the end of the year [endYear]. *)
Equations? sequenceFrom (endYear endIndex currentYear currentSeasonIndex : Z)
  : list Semester
  by wf (Z.to_nat (3 * (endYear - currentYear)
                   + Z.max 0 (2 - currentSeasonIndex) + 1)) lt :=
  sequenceFrom endYear endIndex currentYear currentSeasonIndex
    with decide (inRange currentYear currentSeasonIndex endYear endIndex = true) => {
    | right _ := [];
    | left Hin with decide (3 <= currentSeasonIndex + 1) => {
        | left Hwrap :=
            {| season := seasons_at currentSeasonIndex; year := currentYear |}
              :: sequenceFrom endYear endIndex (currentYear + 1) 0;
        | right Hwrap :=
            {| season := seasons_at currentSeasonIndex; year := currentYear |}
              :: sequenceFrom endYear endIndex currentYear (currentSeasonIndex + 1) } }.
Proof.
  all: unfold inRange in Hin; lia.
Qed.

(** A comparison with [NaN] is false, so the loop body never runs when a
    year failed to parse. *)
Definition generateSemesterSequence (start end_ : ParsedSemester) : list Semester :=
  match ps_year start, ps_year end_ with
  | Some startYear, Some endYear =>
      sequenceFrom endYear (seasons_indexOf (ps_season end_))
                   startYear (seasons_indexOf (ps_season start))
  | _, _ => []
  end.

(** ** checkSatisfiedRequirements *)

(** The test made on one requirement of the loop: every course of
    [req.courses || []] is completed and there is at least one. *)
Definition hasAllRequired (completedCourseIds : gset string) (req : Requirement) : bool :=
  let requiredCourses := default [] (courses req) in
  forallb (λ course, bool_decide (course ∈ completedCourseIds)) requiredCourses
  && (0 <? Z.of_nat (length requiredCourses)).

(** The loop pushes the label of every requirement that passes the test,
    in order. *)
Definition checkSatisfiedRequirements
    (requirements : list Requirement) (completedCourses : list CompletedCourse)
  : list string :=
  let completedCourseIds : gset string :=
    list_to_set (cc_course_id <$> completedCourses) in
  category <$> filter (λ req, hasAllRequired completedCourseIds req = true) requirements.

(** ** parsePrerequisites *)

(** Exactly [n] characters of the class [p] at the head of [s]: the
    characters and what follows them. *)
Fixpoint takeN (p : ascii → bool) (n : nat) (s : string) : option (string * string) :=
  match n with
  | O => Some (EmptyString, s)
  | S n' =>
      match s with
      | String c r =>
          if p c
          then match takeN p n' r with
               | Some (m, rest) => Some (String c m, rest)
               | None => None
               end
          else None
      | EmptyString => None
      end
  end.

(** The white space at the head of [s] and what follows it. *)
Fixpoint spanSpaces (s : string) : string * string :=
  match s with
  | String c r =>
      if JS.isSpace c
      then let '(m, rest) := spanSpaces r in (String c m, rest)
      else (EmptyString, s)
  | EmptyString => (EmptyString, s)
  end.

(** A match of [/[A-Z]{4}\s*\d{3}[A-Z]?/] at the head of [s]: the text
    matched.  Each part is greedy and no part can give back characters
    to the next one. *)
Definition matchCourseAt (s : string) : option string :=
  match takeN JS.isUpper 4 s with
  | None => None
  | Some (letters, r1) =>
      let '(spaces, r2) := spanSpaces r1 in
      match takeN JS.isDigit 3 r2 with
      | None => None
      | Some (digits, r3) =>
          let suffix :=
            match r3 with
            | String c _ => if JS.isUpper c then String c EmptyString else EmptyString
            | EmptyString => EmptyString
            end in
          Some (letters +:+ spaces +:+ digits +:+ suffix)
      end
  end.

(** [s.match(/.../g)]: the matches from left to right, the search resuming
    after each match; [skip] counts the characters of the last match that
    are still to be passed. *)
Fixpoint matchAllCourses (skip : nat) (s : string) : list string :=
  match s with
  | EmptyString => []
  | String _ r =>
      match skip with
      | S skip' => matchAllCourses skip' r
      | O =>
          match matchCourseAt s with
          | Some m => m :: matchAllCourses (String.length m - 1) r
          | None => matchAllCourses 0 r
          end
      end
  end.

(** [course.replace(/\s+/g, '')]. *)
Fixpoint removeSpaces (s : string) : string :=
  match s with
  | EmptyString => EmptyString
  | String c r => if JS.isSpace c then removeSpaces r else String c (removeSpaces r)
  end.

Definition parsePrerequisites (prereqString : string) : list string :=
  if String.eqb prereqString EmptyString then []
  else removeSpaces <$> matchAllCourses 0 prereqString.

(** ** fetchCourseInformation *)

(** The first element of the JSON array answered by the catalog, reduced
    to the fields the code reads; [credits] is the text that [parseInt]
    receives. *)
Record CatalogCourse := {
  cat_name : option string;
  cat_credits : option string;
  cat_prereqs : option string;
  cat_description : option string
}.

(** What happens inside the [try] block for one identifier. *)
Inductive FetchResult :=
| FetchThrows                     (* something in the block throws *)
| FetchNotOk                      (* [response.ok] is false *)
| FetchNoCourse                   (* the JSON is not a non-empty array *)
| FetchCourse (c : CatalogCourse) (* [data[0]] *).

(** The record of the [catch] block. *)
Definition fallbackCourse (courseId : string) : CourseInfo :=
  {| ci_course_id := courseId;
     ci_name := courseId;
     ci_credits := 3;
     ci_prerequisites := [];
     ci_description := EmptyString |}.

Definition catalogRecord (courseId : string) (course : CatalogCourse) : CourseInfo :=
  {| ci_course_id := courseId;
     ci_name := JS.orStr (cat_name course) courseId;
     ci_credits := JS.orNum (JS.parseInt (cat_credits course)) 3;
     ci_prerequisites := parsePrerequisites (JS.orStr (cat_prereqs course) EmptyString);
     ci_description := JS.orStr (cat_description course) EmptyString |}.

(** One iteration of the loop over [courseIds]. *)
Definition fetchOne (fetch : string → FetchResult)
    (courseInfo : gmap string CourseInfo) (courseId : string)
  : gmap string CourseInfo :=
  match fetch courseId with
  | FetchCourse course => <[courseId := catalogRecord courseId course]> courseInfo
  | FetchThrows => <[courseId := fallbackCourse courseId]> courseInfo
  | FetchNotOk | FetchNoCourse => courseInfo
  end.

Definition fetchCourseInformation (fetch : string → FetchResult) (courseIds : list string)
  : gmap string CourseInfo :=
  fold_left (fetchOne fetch) courseIds ∅.

(** ** planCourseSequence *)

Definition semesterKey (semester : Semester) : string :=
  default "undefined" (season semester) +:+ " " +:+ pretty (year semester).

(** The variables the loops update. *)
Record PlanState := {
  plannedCourses : list SequencedCourse;
  completed : gset string;
  currentCredits : Z
}.

(** The object pushed onto [plannedCourses]. *)
Definition plannedEntry (key : string) (label : string) (courseId : string)
    (course : CourseInfo) : SequencedCourse :=
  {| sc_course_id := courseId;
     sc_name := ci_name course;
     sc_credits := ci_credits course;
     sc_prerequisites := ci_prerequisites course;
     sc_satisfies := [label];
     sc_plannedSemester := key |}.

(** The three updates made when the prerequisites are satisfied. *)
Definition place (key : string) (label : string) (courseId : string)
    (course : CourseInfo) (st : PlanState) : PlanState :=
  {| plannedCourses := plannedCourses st ++ [plannedEntry key label courseId course];
     completed := {[courseId]} ∪ completed st;
     currentCredits := currentCredits st + ci_credits course |}.

Definition prereqsSatisfied (course : CourseInfo) (st : PlanState) : bool :=
  forallb (λ prereq, bool_decide (prereq ∈ completed st)) (ci_prerequisites course).

(** The innermost loop, over the courses of one requirement; [break]
    ends it, [continue] goes on with the next course. *)
Fixpoint planCourses (courseInfo : gmap string CourseInfo) (maxCreditsPerSemester : Z)
    (key label : string) (courseIds : list string) (st : PlanState) : PlanState :=
  match courseIds with
  | [] => st
  | courseId :: rest =>
      if bool_decide (courseId ∈ completed st)
      then planCourses courseInfo maxCreditsPerSemester key label rest st
      else if maxCreditsPerSemester <=? currentCredits st
      then st
      else match courseInfo !! courseId with
           | None => planCourses courseInfo maxCreditsPerSemester key label rest st
           | Some course =>
               if prereqsSatisfied course st
               then planCourses courseInfo maxCreditsPerSemester key label rest
                      (place key label courseId course st)
               else planCourses courseInfo maxCreditsPerSemester key label rest st
           end
  end.

(** The body of the loop over the requirements. *)
Definition planRequirement (courseInfo : gmap string CourseInfo) (maxCreditsPerSemester : Z)
    (key : string) (st : PlanState) (req : Requirement) : PlanState :=
  match courses req with
  | None => st
  | Some courseIds =>
      planCourses courseInfo maxCreditsPerSemester key (category req) courseIds st
  end.

(** [let currentCredits = 0] at the head of the loop over the semesters. *)
Definition resetCredits (st : PlanState) : PlanState :=
  {| plannedCourses := plannedCourses st;
     completed := completed st;
     currentCredits := 0 |}.

(** The body of the loop over the semesters. *)
Definition planSemester (requirements : list Requirement)
    (courseInfo : gmap string CourseInfo) (maxCreditsPerSemester : Z)
    (st : PlanState) (semester : Semester) : PlanState :=
  fold_left (planRequirement courseInfo maxCreditsPerSemester (semesterKey semester))
    requirements (resetCredits st).

Definition planLoop (requirements : list Requirement)
    (courseInfo : gmap string CourseInfo) (maxCreditsPerSemester : Z)
    (availableSemesters : list Semester) (st : PlanState) : PlanState :=
  fold_left (planSemester requirements courseInfo maxCreditsPerSemester)
    availableSemesters st.

Definition planCourseSequence (requirements : list Requirement)
    (courseInfo : gmap string CourseInfo) (completedCourses : list string)
    (availableSemesters : list Semester) (maxCreditsPerSemester : Z)
  : list SequencedCourse :=
  plannedCourses
    (planLoop requirements courseInfo maxCreditsPerSemester availableSemesters
       {| plannedCourses := [];
          completed := list_to_set completedCourses;
          currentCredits := 0 |}).

(** ** generateWarnings *)

Definition semesterName (sem : SemesterPlan) : string :=
  default "undefined" (sp_semester sem) +:+ " " +:+ pretty (sp_year sem).

Definition overloaded (sem : SemesterPlan) : string :=
  semesterName sem +:+ ": Overloaded with " +:+ pretty (sp_totalCredits sem) +:+ " credits".

Definition underFullTime (sem : SemesterPlan) : string :=
  semesterName sem +:+ ": Under full-time status with "
    +:+ pretty (sp_totalCredits sem) +:+ " credits".

Definition warningsOf (maxCreditsPerSemester : Z) (sem : SemesterPlan) : list string :=
  (if maxCreditsPerSemester <? sp_totalCredits sem then [overloaded sem] else [])
  ++ (if (sp_totalCredits sem <? 12) && (0 <? Z.of_nat (length (sp_courses sem)))
      then [underFullTime sem] else []).

Definition generateWarnings (semesters : list SemesterPlan) (maxCreditsPerSemester : Z)
  : list string :=
  semesters ≫= warningsOf maxCreditsPerSemester.

(** ** findUnmetRequirements *)

(** The test of the loop: the requirement has a course list and none of
    its courses is planned. *)
Definition lacksPlannedCourse (plannedCourseIds : gset string) (req : Requirement) : bool :=
  match courses req with
  | None => false
  | Some courseIds =>
      negb (existsb (λ course, bool_decide (course ∈ plannedCourseIds)) courseIds)
  end.

Definition findUnmetRequirements
    (allRequirements : list Requirement) (plannedCourses : list SequencedCourse)
  : list string :=
  let plannedCourseIds : gset string := list_to_set (sc_course_id <$> plannedCourses) in
  category <$> filter (λ req, lacksPlannedCourse plannedCourseIds req = true) allRequirements.

(** ** generateGraduationPlan *)

(** [set.add(course)] on a [Set] kept in insertion order. *)
Definition set_add (elements : list string) (course : string) : list string :=
  if bool_decide (course ∈ elements) then elements else elements ++ [course].

(** [Array.from(allRequiredCourses)] after the two [forEach] loops. *)
Definition allRequiredCourses (remainingRequirements : list Requirement) : list string :=
  fold_left (λ elements req, fold_left set_add (default [] (courses req)) elements)
    remainingRequirements [].

Definition allRequirementsOf (majors : list Major) (minors : list Minor) : list Requirement :=
  (majors ≫= major_requirements) ++ (minors ≫= minor_requirements).

Definition remainingRequirementsOf
    (allRequirements : list Requirement) (completedCourses : list CompletedCourse)
  : list Requirement :=
  let satisfiedRequirements := checkSatisfiedRequirements allRequirements completedCourses in
  filter (λ req, category req ∉ satisfiedRequirements) allRequirements.

Definition toPlannedCourse (course : SequencedCourse) : PlannedCourse :=
  {| pc_course_id := sc_course_id course;
     pc_name := sc_name course;
     pc_credits := sc_credits course;
     pc_prerequisites := sc_prerequisites course;
     pc_satisfies := sc_satisfies course |}.

(** The [map] that builds the semester plans, with [totalCredits: 0]. *)
Definition buildSemester (courseSequence : list SequencedCourse) (sem : Semester)
  : SemesterPlan :=
  {| sp_semester := season sem;
     sp_year := year sem;
     sp_courses :=
       toPlannedCourse <$>
         filter (λ course, sc_plannedSemester course = semesterKey sem) courseSequence;
     sp_totalCredits := 0 |}.

(** [courses.reduce((total, course) => total + course.credits, 0)]. *)
Definition sumCredits (courses : list PlannedCourse) : Z :=
  fold_left (λ total course, total + pc_credits course) courses 0.

(** The [forEach] that fills in [totalCredits]. *)
Definition setTotalCredits (sem : SemesterPlan) : SemesterPlan :=
  {| sp_semester := sp_semester sem;
     sp_year := sp_year sem;
     sp_courses := sp_courses sem;
     sp_totalCredits := sumCredits (sp_courses sem) |}.

Definition buildSemesters (availableSemesters : list Semester)
    (courseSequence : list SequencedCourse) : list SemesterPlan :=
  setTotalCredits <$> (buildSemester courseSequence <$> availableSemesters).

(** The course sequence computed for a request whose terms are parsed. *)
Definition courseSequenceOf (fetch : string → FetchResult)
    (allRequirements : list Requirement) (completedCourses : list CompletedCourse)
    (availableSemesters : list Semester) (maxCreditsPerSemester : Z)
  : list SequencedCourse :=
  let remainingRequirements := remainingRequirementsOf allRequirements completedCourses in
  let courseInfo := fetchCourseInformation fetch (allRequiredCourses remainingRequirements) in
  planCourseSequence remainingRequirements courseInfo
    (cc_course_id <$> completedCourses) availableSemesters maxCreditsPerSemester.

Definition generateGraduationPlan (fetch : string → FetchResult)
    (request : GeneratePlanRequest) : Exn GraduationPlan :=
  let minors_ := default [] (minors request) in
  try! startSemester ← parseSemester (startingSemester request);
  try! targetSemester ← parseSemester (graduationTarget request);
  let availableSemesters := generateSemesterSequence startSemester targetSemester in
  match majors request with
  | None => Throw "TypeError"
  | Some majors_ =>
      let allRequirements := allRequirementsOf majors_ minors_ in
      let courseSequence :=
        courseSequenceOf fetch allRequirements (completedCourses request)
          availableSemesters (maxCreditsPerSemester request) in
      let semesters := buildSemesters availableSemesters courseSequence in
      let warnings := generateWarnings semesters (maxCreditsPerSemester request) in
      let unmetRequirements := findUnmetRequirements allRequirements courseSequence in
      let totalCredits :=
        fold_left (λ total sem, total + sp_totalCredits sem) semesters 0
        + fold_left (λ total course, total + cc_credits course)
            (completedCourses request) 0 in
      Ok {| gp_majors := majors_;
            gp_minors := minors_;
            gp_semesters := filter (λ sem, (0 < length (sp_courses sem))%nat) semesters;
            gp_totalCredits := totalCredits;
            gp_completionDate := default EmptyString (graduationTarget request);
            gp_warnings := warnings;
            gp_unmetRequirements := unmetRequirements |}
  end.

(** ** handler *)

Record HttpRequest := {
  method : string;
  body : GeneratePlanRequest
}.

Record ApiResponse := {
  success : bool;
  data : option GraduationPlan;
  error : option string;
  details : option string
}.

Record HttpResponse := {
  status : Z;
  json : ApiResponse
}.

Definition handler (fetch : string → FetchResult) (req : HttpRequest) : HttpResponse :=
  if negb (String.eqb (method req) "POST")
  then {| status := 405;
          json := {| success := false; data := None;
                     error := Some ("Method " +:+ method req +:+ " not allowed");
                     details := None |} |}
  else
    let requestData := body req in
    match majors requestData with
    | None | Some [] =>
        {| status := 400;
           json := {| success := false; data := None;
                      error := Some "At least one major is required";
                      details := None |} |}
    | Some _ =>
        match generateGraduationPlan fetch requestData with
        | Ok graduationPlan =>
            {| status := 200;
               json := {| success := true; data := Some graduationPlan;
                          error := None; details := None |} |}
        | Throw message =>
            {| status := 500;
               json := {| success := false; data := None;
                          error := Some "Failed to generate graduation plan";
                          details := Some message |} |}
        end
    end.

(** ** The walk over the terms, as the specification describes it *)

Inductive Season := Spring | Summer | Fall.

Record Term := {
  term_season : Season;
  term_year : Z
}.

Definition seasonName (s : Season) : string :=
  match s with
  | Spring => "spring"
  | Summer => "summer"
  | Fall => "fall"
  end.

Definition seasonOrdinal (s : Season) : Z :=
  match s with
  | Spring => 0
  | Summer => 1
  | Fall => 2
  end.

(** The term that follows in the cycle spring, summer, fall, spring of the
    next year. *)
Definition nextTerm (t : Term) : Term :=
  match term_season t with
  | Spring => {| term_season := Summer; term_year := term_year t |}
  | Summer => {| term_season := Fall; term_year := term_year t |}
  | Fall => {| term_season := Spring; term_year := term_year t + 1 |}
  end.

(** [n] consecutive terms from [t] on. *)
Fixpoint termWalk (n : nat) (t : Term) : list Term :=
  match n with
  | O => []
  | S n' => t :: termWalk n' (nextTerm t)
  end.

(** The position of a term on the time line, three per year. *)
Definition termOrdinal (t : Term) : Z :=
  3 * term_year t + seasonOrdinal (term_season t).

(** The terms from [start] through [target], both included. *)
Definition termsBetween (start target : Term) : list Term :=
  termWalk (Z.to_nat (termOrdinal target - termOrdinal start + 1)) start.

(** A term as [parseSemester] returns it, and as the sequencer pushes it. *)
Definition parsedTerm (t : Term) : ParsedSemester :=
  {| ps_season := seasonName (term_season t); ps_year := Some (term_year t) |}.

Definition semesterOf (t : Term) : Semester :=
  {| season := Some (seasonName (term_season t)); year := term_year t |}.

(** ** Scenarios used by the witnesses and counterexamples *)

Module Scenario.

Definition course (name credits : string) (prereqs : option string) : FetchResult :=
  FetchCourse {| cat_name := Some name; cat_credits := Some credits;
                 cat_prereqs := prereqs; cat_description := None |}.

(** A catalog that knows six courses and answers 404 for the others. *)
Definition catalog (courseId : string) : FetchResult :=
  if String.eqb courseId "MATH140" then course "Calculus I" "4" None
  else if String.eqb courseId "MATH141"
  then course "Calculus II" "4" (Some "Prerequisite: MATH140.")
  else if String.eqb courseId "CMSC131" then course "Object-Oriented Programming I" "4" None
  else if String.eqb courseId "CMSC132"
  then course "Object-Oriented Programming II" "4" (Some "CMSC131")
  else if String.eqb courseId "ENGL101" then course "Academic Writing" "3" None
  else if String.eqb courseId "STAT400"
  then course "Applied Probability and Statistics I" "3" (Some "MATH141")
  else FetchNotOk.

Definition requirement (label : string) (courseIds : list string) : Requirement :=
  {| category := label; courses := Some courseIds |}.

Definition major (requirements : list Requirement) : Major :=
  {| major_code := "MAJR"; major_name := "Major"; major_requirements := requirements |}.

Definition minor (requirements : list Requirement) : Minor :=
  {| minor_code := "MINR"; minor_name := "Minor"; minor_requirements := requirements |}.


(** The scenario of the specification: MATH140 and MATH141 in one
    category, nothing completed, fall 2024 to fall 2025, cap 15. *)
Definition calculus : GeneratePlanRequest :=
  {| majors := Some [major [requirement "core" ["MATH140"; "MATH141"]]];
     minors := None;
     completedCourses := [];
     startingSemester := Some "Fall 2024";
     graduationTarget := Some "Fall 2025";
     maxCreditsPerSemester := 15 |}.

(** Four courses of four credits and one of three, one completed course,
    cap 15. *)
Definition fiveCourses : GeneratePlanRequest :=
  {| majors := Some [major [requirement "core" ["MATH140"; "CMSC131"; "MATH141"; "CMSC132"];
                            requirement "statistics" ["STAT400"; "MATH141"]]];
     minors := Some [];
     completedCourses := [ {| cc_course_id := "ENGL101"; cc_credits := 3 |} ];
     startingSemester := Some "Fall 2024";
     graduationTarget := Some "Spring 2025";
     maxCreditsPerSemester := 15 |}.

(** One category whose only course is already completed. *)
Definition writingDone : GeneratePlanRequest :=
  {| majors := Some [major [requirement "core" ["ENGL101"]]];
     minors := None;
     completedCourses := [ {| cc_course_id := "ENGL101"; cc_credits := 3 |} ];
     startingSemester := Some "Fall 2024";
     graduationTarget := Some "Fall 2025";
     maxCreditsPerSemester := 15 |}.

(** A major and a minor that both call a category "core"; the completed
    course satisfies the one of the major only. *)
Definition twinLabels : GeneratePlanRequest :=
  {| majors := Some [major [requirement "core" ["ENGL101"]]];
     minors := Some [minor [requirement "core" ["MATH140"]]];
     completedCourses := [ {| cc_course_id := "ENGL101"; cc_credits := 3 |} ];
     startingSemester := Some "Fall 2024";
     graduationTarget := Some "Fall 2025";
     maxCreditsPerSemester := 15 |}.

(** A catalog whose request for HIST999 fails on the network. *)
Definition flakyCatalog (courseId : string) : FetchResult :=
  if String.eqb courseId "HIST999" then FetchThrows else catalog courseId.

(** A category with one course that the catalog does not know (404) and
    one for which the request fails. *)
Definition unknownCourses : GeneratePlanRequest :=
  {| majors := Some [major [requirement "core" ["ARTT100"];
                            requirement "history" ["HIST999"]]];
     minors := None;
     completedCourses := [];
     startingSemester := Some "Fall 2024";
     graduationTarget := Some "Fall 2025";
     maxCreditsPerSemester := 15 |}.

Definition withTerms (start target : option string) (cap : Z) : GeneratePlanRequest :=
  {| majors := Some [major [requirement "core" ["MATH140"; "MATH141"]]];
     minors := None;
     completedCourses := [];
     startingSemester := start;
     graduationTarget := target;
     maxCreditsPerSemester := cap |}.


(** Two categories list CMSC132; the first one lists it before its
    prerequisite CMSC131. *)
Definition sharedCourse : GeneratePlanRequest :=
  {| majors := Some [major [requirement "programming" ["CMSC132"; "CMSC131"];
                            requirement "electives" ["CMSC132"]]];
     minors := None;
     completedCourses := [];
     startingSemester := Some "Fall 2024";
     graduationTarget := Some "Fall 2025";
     maxCreditsPerSemester := 15 |}.

End Scenario.

(** ** validateGraduationPlan (the plan validation endpoint) *)

(** The plan as the validator reads it from the JSON body: the fields it
    looks at, [prerequisites] being [None] when a course has none. *)
Record SubmittedCourse := {
  sub_course_id : string;
  sub_prerequisites : option (list string)
}.

Record SubmittedSemester := {
  sub_semester : option string;
  sub_year : Z;
  sub_courses : list SubmittedCourse;
  sub_totalCredits : Z
}.

Record ValidationResults := {
  isValid : bool;
  errors : list string;
  warnings : list string;
  suggestions : list string
}.

Definition termName (semester : SubmittedSemester) : string :=
  default "undefined" (sub_semester semester) +:+ " " +:+ pretty (sub_year semester).

Definition heavyLoad (semester : SubmittedSemester) : string :=
  termName semester +:+ ": Heavy course load ("
    +:+ pretty (sub_totalCredits semester) +:+ " credits)".

Definition belowFullTime (semester : SubmittedSemester) : string :=
  termName semester +:+ ": Below full-time status ("
    +:+ pretty (sub_totalCredits semester) +:+ " credits)".

(** The body of the first [forEach]. *)
Definition loadWarnings (semester : SubmittedSemester) : list string :=
  (if 20 <? sub_totalCredits semester then [heavyLoad semester] else [])
  ++ (if (sub_totalCredits semester <? 12)
         && (0 <? Z.of_nat (length (sub_courses semester)))
      then [belowFullTime semester] else []).

(** [course.prerequisites?.filter(prereq => !completedCourses.has(prereq)) || []]. *)
Definition unmetPrereqsOf (completedCourses : gset string) (course : SubmittedCourse)
  : list string :=
  default [] (filter (λ prereq, prereq ∉ completedCourses) <$> sub_prerequisites course).

Definition missingPrerequisites (semester : SubmittedSemester) (course : SubmittedCourse)
    (unmetPrereqs : list string) : string :=
  sub_course_id course +:+ " in " +:+ termName semester
    +:+ ": Missing prerequisites: " +:+ String.concat ", " unmetPrereqs.

Definition pushError (message : string) (results : ValidationResults) : ValidationResults :=
  {| isValid := false;
     errors := errors results ++ [message];
     warnings := warnings results;
     suggestions := suggestions results |}.

(** The body of the inner loop of the prerequisite check; the state is
    the results and the set [completedCourses] of the validator. *)
Definition checkCourse (semester : SubmittedSemester)
    (st : ValidationResults * gset string) (course : SubmittedCourse)
  : ValidationResults * gset string :=
  let unmetPrereqs := unmetPrereqsOf st.2 course in
  (if 0 <? Z.of_nat (length unmetPrereqs)
   then pushError (missingPrerequisites semester course unmetPrereqs) st.1
   else st.1,
   {[ sub_course_id course ]} ∪ st.2).

Definition checkSemester (st : ValidationResults * gset string)
    (semester : SubmittedSemester) : ValidationResults * gset string :=
  fold_left (checkCourse semester) (sub_courses semester) st.

Definition insufficientCredits (totalCredits : Z) : string :=
  "Insufficient total credits for graduation: " +:+ pretty totalCredits +:+ "/120".

Definition validateGraduationPlan (semesters : list SubmittedSemester) : ValidationResults :=
  let loads :=
    {| isValid := true; errors := [];
       warnings := semesters ≫= loadWarnings; suggestions := [] |} in
  let checked := (fold_left checkSemester semesters (loads, ∅)).1 in
  let totalCredits :=
    fold_left (λ total sem, total + sub_totalCredits sem) semesters 0 in
  let credited :=
    if totalCredits <? 120 then pushError (insufficientCredits totalCredits) checked
    else checked in
  if 8 <? Z.of_nat (length semesters)
  then {| isValid := isValid credited;
          errors := errors credited;
          warnings := warnings credited;
          suggestions :=
            suggestions credited
            ++ ["Consider taking summer courses to reduce time to graduation"] |}
  else credited.

(** A semester plan of the generator as it arrives in the JSON body. *)
Definition submittedCourse (course : PlannedCourse) : SubmittedCourse :=
  {| sub_course_id := pc_course_id course;
     sub_prerequisites := Some (pc_prerequisites course) |}.

Definition submitted (sem : SemesterPlan) : SubmittedSemester :=
  {| sub_semester := sp_semester sem;
     sub_year := sp_year sem;
     sub_courses := submittedCourse <$> sp_courses sem;
     sub_totalCredits := sp_totalCredits sem |}.

(** ** escapeCSV (the export endpoint) *)

Definition quote : ascii := "034"%char.
Definition newline : ascii := "010"%char.

(** [value.includes(c)] for a one-character [c]. *)
Fixpoint includes (c : ascii) (value : string) : bool :=
  match value with
  | EmptyString => false
  | String x rest => Ascii.eqb x c || includes c rest
  end.

(** The [value.replace] that writes every double quote twice. *)
Fixpoint doubleQuotes (value : string) : string :=
  match value with
  | EmptyString => EmptyString
  | String x rest =>
      if Ascii.eqb x quote then String quote (String quote (doubleQuotes rest))
      else String x (doubleQuotes rest)
  end.

(** [None] is a value that is [undefined]. *)
Definition escapeCSV (value : option string) : string :=
  match value with
  | None | Some EmptyString => EmptyString
  | Some value =>
      if includes ","%char value || includes quote value || includes newline value
      then String quote (doubleQuotes value +:+ String quote EmptyString)
      else value
  end.

(** ** The course endpoint (pages/api/courses/[courseId].ts) *)

Module CourseApi.

Record CourseSection := {
  section_id : string;
  instructor : string;
  days : list string;
  start_time : string;
  end_time : string;
  location : string;
  seats_available : Z;
  seats_total : Z
}.

(** The three texts copied from the catalog are [None] when the catalog
    leaves them out. *)
Record CourseInfo := {
  course_id : option string;
  name : option string;
  description : option string;
  credits : Z;
  prerequisites : list string;
  corequisites : list string;
  restrictions : list string;
  sections : list CourseSection
}.

Record Relationships := {
  prereqs : option string;
  coreqs : option string;
  rel_restrictions : option string
}.

(** [apiData[0]], reduced to the fields the code reads. *)
Record UMDApiResponse := {
  umd_course_id : option string;
  umd_name : option string;
  umd_description : option string;
  umd_credits : option string;
  umd_relationships : option Relationships
}.

(** What the request to the catalog comes to. *)
Inductive CatalogAnswer :=
| Throws                          (* [fetch] or [response.json()] throws *)
| NotOk                           (* [response.ok] is false *)
| NoCourse                        (* the JSON is not a non-empty array *)
| Course (c : UMDApiResponse)     (* [apiData[0]] *).

Definition parsePrerequisites (prereqString : string) : list string :=
  if String.eqb prereqString EmptyString then []
  else removeSpaces <$> matchAllCourses 0 prereqString.

Definition parseCorequisites (coreqString : string) : list string :=
  if String.eqb coreqString EmptyString then []
  else removeSpaces <$> matchAllCourses 0 coreqString.

(** [s.split(c)] for a one-character [c]. *)
Fixpoint splitOn (c : ascii) (s : string) : list string :=
  match s with
  | EmptyString => [EmptyString]
  | String x r =>
      if Ascii.eqb x c then EmptyString :: splitOn c r
      else match splitOn c r with
           | [] => [String x EmptyString]
           | piece :: pieces => String x piece :: pieces
           end
  end.

Fixpoint trimEnd (s : string) : string :=
  match s with
  | EmptyString => EmptyString
  | String c r =>
      match trimEnd r with
      | EmptyString => if JS.isSpace c then EmptyString else String c EmptyString
      | r' => String c r'
      end
  end.

(** [s.trim()], for the one-byte white space. *)
Definition trim (s : string) : string := trimEnd (JS.skipSpaces s).

Definition parseRestrictions (restrictionString : string) : list string :=
  if String.eqb restrictionString EmptyString then []
  else filter (λ r, (0 < String.length r)%nat) (trim <$> splitOn ","%char restrictionString).

(** The record of the [catch] block. *)
Definition basicInfo (courseId : string) : CourseInfo :=
  {| course_id := Some courseId;
     name := Some courseId;
     description := Some "Course information not available";
     credits := 3;
     prerequisites := [];
     corequisites := [];
     restrictions := [];
     sections := [] |}.

(** [fetchCourseSections] answers a list and never throws; its answer is
    taken as given.  A course without [relationships] makes the [try]
    block throw when it reads [relationships.prereqs]. *)
Definition fetchCourseFromUMDAPI (fetch : string → CatalogAnswer)
    (fetchCourseSections : string → list CourseSection) (courseId : string) : CourseInfo :=
  match fetch courseId with
  | Course courseData =>
      match umd_relationships courseData with
      | Some relationships =>
          {| course_id := umd_course_id courseData;
             name := umd_name courseData;
             description := umd_description courseData;
             credits := JS.orNum (JS.parseInt (umd_credits courseData)) 0;
             prerequisites :=
               parsePrerequisites (JS.orStr (prereqs relationships) EmptyString);
             corequisites :=
               parseCorequisites (JS.orStr (coreqs relationships) EmptyString);
             restrictions :=
               parseRestrictions (JS.orStr (rel_restrictions relationships) EmptyString);
             sections := fetchCourseSections courseId |}
      | None => basicInfo courseId
      end
  | Throws | NotOk | NoCourse => basicInfo courseId
  end.

(** *** The cache *)

Record CacheEntry := {
  data : CourseInfo;
  timestamp : Z
}.

Definition CACHE_DURATION : Z := 1000 * 60 * 30.

(** [Date.now()] at the three places that read it while one request is
    served. *)
Record Clock := {
  atCheck : Z;
  atStore : Z;
  atCleanup : Z
}.

Definition keysToDelete (now : Z) (courseCache : gmap string CacheEntry) : list string :=
  (filter (λ entry, CACHE_DURATION < now - timestamp entry.2) (map_to_list courseCache)).*1.

Definition cleanupCache (now : Z) (courseCache : gmap string CacheEntry)
  : gmap string CacheEntry :=
  foldr delete courseCache (keysToDelete now courseCache).

(** *** handler *)

(** [courseId] is [None] when the query holds no string there. *)
Record Request := {
  method : string;
  courseId : option string
}.

Record ApiResponse := {
  success : bool;
  response_data : option CourseInfo;
  error : option string
}.

Record Response := {
  status : Z;
  json : ApiResponse
}.

Definition found (courseInfo : CourseInfo) : Response :=
  {| status := 200;
     json := {| success := true; response_data := Some courseInfo; error := None |} |}.

(** The part of the [try] block after the cache check. *)
Definition refresh (fetch : string → CatalogAnswer)
    (fetchCourseSections : string → list CourseSection) (clock : Clock)
    (id : string) (courseCache : gmap string CacheEntry)
  : Response * gmap string CacheEntry :=
  let courseInfo := fetchCourseFromUMDAPI fetch fetchCourseSections id in
  let stored := <[id := {| data := courseInfo; timestamp := atStore clock |}]> courseCache in
  (found courseInfo, cleanupCache (atCleanup clock) stored).

(** The handler with the cache passed in and out.  Nothing in the [try]
    block throws, so that the answer 500 of the [catch] block is never
    given. *)
Definition handler (fetch : string → CatalogAnswer)
    (fetchCourseSections : string → list CourseSection) (clock : Clock)
    (req : Request) (courseCache : gmap string CacheEntry)
  : Response * gmap string CacheEntry :=
  if negb (String.eqb (method req) "GET")
  then ({| status := 405;
           json := {| success := false; response_data := None;
                      error := Some ("Method " +:+ method req +:+ " not allowed") |} |},
        courseCache)
  else
    match courseId req with
    | None | Some EmptyString =>
        ({| status := 400;
            json := {| success := false; response_data := None;
                       error := Some "Course ID is required" |} |},
         courseCache)
    | Some id =>
        match courseCache !! id with
        | Some cached =>
            if atCheck clock - timestamp cached <? CACHE_DURATION
            then (found (data cached), courseCache)
            else refresh fetch fetchCourseSections clock id courseCache
        | None => refresh fetch fetchCourseSections clock id courseCache
        end
    end.

(** The same answer of the catalog as [fetchCourseInformation] of the
    planner reads it: both ask for the same address. *)
Definition asPlannerReads (answer : CatalogAnswer) : FetchResult :=
  match answer with
  | Throws => FetchThrows
  | NotOk => FetchNotOk
  | NoCourse => FetchNoCourse
  | Course c =>
      FetchCourse {| cat_name := umd_name c;
                     cat_credits := umd_credits c;
                     cat_prereqs := umd_relationships c ≫= prereqs;
                     cat_description := umd_description c |}
  end.

End CourseApi.

(** ** The plan editor (app/components/GradPlan.tsx) *)

Module GradPlan.

Record Course := {
  course_id : string;
  name : string;
  credits : Z;
  prerequisites : list string;
  satisfies : option (list string)
}.

(** [id] and [semester] are [None] where the plan received has no such
    field. *)
Record Semester := {
  id : option string;
  semester : option string;
  year : Z;
  courses : list Course;
  totalCredits : Z
}.

Record Program := {
  program_name : string;
  program_code : string
}.

(** The state [plan] of the component. *)
Record Plan := {
  semesters : list Semester;
  majors : list Program;
  minors : list Program;
  planCredits : Z;
  warnings : list string
}.

(** *** getRequirementColor *)


(** [ToInt32]: the value modulo 2^32, taken between -2^31 and 2^31 - 1. *)
Definition toInt32 (z : Z) : Z := (z + 2 ^ 31) mod 2 ^ 32 - 2 ^ 31.

(** [a << 5]. *)
Definition shiftLeft5 (a : Z) : Z := toInt32 (toInt32 a * 2 ^ 5).

(** The body of the [reduce]: [a = ((a << 5) - a) + b.charCodeAt(0)] and
    then [a & a]. *)
Definition hashStep (a : Z) (b : ascii) : Z :=
  toInt32 (shiftLeft5 a - a + JS.code b).

Fixpoint hashFrom (a : Z) (label : string) : Z :=
  match label with
  | EmptyString => a
  | String b rest => hashFrom (hashStep a b) rest
  end.


(** *** addSemester and removeSemester *)

Definition semesterId (newSeason : option string) (newYear : Z) : string :=
  default "undefined" newSeason +:+ "-" +:+ pretty newYear.

Definition emptySemester (newSeason : option string) (newYear : Z) : Semester :=
  {| id := Some (semesterId newSeason newYear);
     semester := newSeason;
     year := newYear;
     courses := [];
     totalCredits := 0 |}.

(** The season and the year of the semester to add; [thisYear] is
    [new Date().getFullYear()].  The array [seasonOrder] is the array
    [seasons] of the planner. *)
Definition nextSemester (thisYear : Z) (lastSemester : option Semester)
  : Exn (option string * Z) :=
  match lastSemester with
  | None => Ok (Some "fall", thisYear)
  | Some lastSemester =>
      match semester lastSemester with
      | None => Throw "TypeError"
      | Some text =>
          let currentSeasonIndex := seasons_indexOf (JS.toLowerCase text) in
          if currentSeasonIndex =? Z.of_nat (length seasons) - 1
          then Ok (seasons_at 0, year lastSemester + 1)
          else Ok (seasons_at (currentSeasonIndex + 1), year lastSemester)
      end
  end.

Definition addSemester (editable : bool) (thisYear : Z) (plan : Plan) : Exn Plan :=
  if negb editable then Ok plan
  else
    match nextSemester thisYear (last (semesters plan)) with
    | Throw message => Throw message
    | Ok (newSeason, newYear) =>
        Ok {| semesters := semesters plan ++ [emptySemester newSeason newYear];
              majors := majors plan;
              minors := minors plan;
              planCredits := planCredits plan;
              warnings := warnings plan |}
    end.

Definition removeSemester (editable : bool) (removed : string) (plan : Plan) : Plan :=
  if negb editable then plan
  else
    let newSemesters := filter (λ s, id s ≠ Some removed) (semesters plan) in
    {| semesters := newSemesters;
       majors := majors plan;
       minors := minors plan;
       planCredits := fold_left (λ sum sem, sum + totalCredits sem) newSemesters 0;
       warnings := warnings plan |}.

End GradPlan.

(** The 31-fold polynomial over the character codes, without wrapping. *)
Fixpoint polynomialFrom (a : Z) (label : string) : Z :=
  match label with
  | EmptyString => a
  | String b rest => polynomialFrom (31 * a + JS.code b) rest
  end.

(** ** More scenarios *)

Module Cases.

(** One term with room for a single course of four credits. *)
Definition oneFullTerm : GeneratePlanRequest :=
  {| majors := Some [Scenario.major [Scenario.requirement "core" ["MATH140"; "CMSC131"]]];
     minors := None;
     completedCourses := [];
     startingSemester := Some "Fall 2024";
     graduationTarget := Some "Fall 2024";
     maxCreditsPerSemester := 4 |}.

(** MATH140 listed by two categories. *)
Definition twoListings : GeneratePlanRequest :=
  {| majors := Some [Scenario.major [Scenario.requirement "core" ["MATH140"];
                                     Scenario.requirement "electives"
                                       ["MATH140"; "CMSC131"]]];
     minors := None;
     completedCourses := [];
     startingSemester := Some "Fall 2024";
     graduationTarget := Some "Fall 2024";
     maxCreditsPerSemester := 15 |}.

(** A negative cap over three terms. *)
Definition negativeCap : GeneratePlanRequest :=
  Scenario.withTerms (Some "Fall 2024") (Some "Summer 2025") (-1).

End Cases.

(** ** Predicates of the statements and of the invariants *)

(** [l.reduce((total, x) => total + f(x), 0)]. *)
Definition total {A} (f : A → Z) (l : list A) : Z :=
  fold_left (λ acc x, acc + f x) l 0.

(** What is known when the innermost loop places a course. *)
Definition placeable (courseInfo : gmap string CourseInfo) (maxCreditsPerSemester : Z)
    (courseId : string) (course : CourseInfo) (st : PlanState) : Prop :=
  (courseId ∉ completed st)
  ∧ (currentCredits st < maxCreditsPerSemester)
  ∧ (courseInfo !! courseId = Some course)
  ∧ (prereqsSatisfied course st = true).

(** The seasons that the sequencer can push: an element of [seasons], or
    [undefined] for an unknown starting season. *)
Definition validSeason (s : option string) : Prop :=
  s ∈ [None; Some "spring"; Some "summer"; Some "fall"].

(** The position of a pushed semester on the time line. *)
Definition semesterIndex (sem : Semester) : Z :=
  3 * year sem
  + match season sem with
    | None => -1
    | Some s => seasons_indexOf s
    end.

(** The set [completed] is the initial one plus the courses planned so far;
    no course is planned twice and none that was completed initially. *)
Definition placedOnce (initial : gset string) (st : PlanState) : Prop :=
  completed st = initial ∪ list_to_set (sc_course_id <$> plannedCourses st)
  ∧ NoDup (sc_course_id <$> plannedCourses st)
  ∧ (∀ courseId, courseId ∈ sc_course_id <$> plannedCourses st → courseId ∉ initial).

(** The courses planned for a term: each is pushed while the credits of
    the ones pushed before it in that term are below the cap. *)
Definition belowCapBefore (maxCreditsPerSemester : Z) (new : list SequencedCourse)
  : Prop :=
  ∀ before course after,
    new = before ++ course :: after → total sc_credits before < maxCreditsPerSemester.

Definition termBlock (maxCreditsPerSemester : Z) (key : string)
    (new : list SequencedCourse) : Prop :=
  Forall (λ course, sc_plannedSemester course = key) new
  ∧ belowCapBefore maxCreditsPerSemester new.

(** The record that the loop of [fetchCourseInformation] stores for an
    identifier, if any. *)
Definition storedRecord (fetch : string → FetchResult) (courseId : string)
  : option CourseInfo :=
  match fetch courseId with
  | FetchCourse course => Some (catalogRecord courseId course)
  | FetchThrows => Some (fallbackCourse courseId)
  | FetchNotOk | FetchNoCourse => None
  end.

(** The requirement has a course list that contains the course. *)
Definition lists (courseId : string) (req : Requirement) : bool :=
  match courses req with
  | Some courseIds => bool_decide (courseId ∈ courseIds)
  | None => false
  end.

(** After the loop over a course list that contains [courseId], either
    the course is completed, or the term is full, or the course has no
    record, or one of its prerequisites was not completed when the loop
    started. *)
Definition blocked (courseInfo : gmap string CourseInfo) (cap : Z)
    (courseId : string) (base : gset string) (st : PlanState) : Prop :=
  courseId ∈ completed st
  ∨ cap <= currentCredits st
  ∨ courseInfo !! courseId = None
  ∨ ∃ course prereq,
      courseInfo !! courseId = Some course
      ∧ prereq ∈ ci_prerequisites course ∧ (prereq ∉ base).

(** The course is credited to the first requirement that lists it, or one
    of its prerequisites is planned for the same semester. *)
Definition creditedToFirst (requirements : list Requirement)
    (courseSequence : list SequencedCourse) (course : SequencedCourse) : Prop :=
  ∀ first,
    find (lists (sc_course_id course)) requirements = Some first →
    sc_satisfies course = [category first]
    ∨ ∃ other,
        other ∈ courseSequence
        ∧ sc_course_id other ∈ sc_prerequisites course
        ∧ sc_plannedSemester other = sc_plannedSemester course.

(** The string contains no space character. *)
Fixpoint spaceFree (s : string) : bool :=
  match s with
  | EmptyString => true
  | String c r => negb (Ascii.eqb c " "%char) && spaceFree r
  end.

(** A text of ASCII characters only: on these [JS.toLowerCase] is the
    [toLowerCase] of the code. *)
Fixpoint asciiText (s : string) : bool :=
  match s with
  | EmptyString => true
  | String c r => (JS.code c <? 128) && asciiText r
  end.

(** A normalised course code: four capital letters, three digits and at
    most one more capital letter, with nothing between or after them. *)
Definition courseCode (s : string) : bool :=
  match takeN JS.isUpper 4 s with
  | Some (_, r) =>
      match takeN JS.isDigit 3 r with
      | Some (_, EmptyString) => true
      | Some (_, String c EmptyString) => JS.isUpper c
      | _ => false
      end
  | None => false
  end.

(** Every prerequisite of every course of the list is in [seen] or is the
    identifier of a course earlier in the list. *)
Fixpoint prerequisitesMet (seen : gset string) (courses : list SubmittedCourse) : Prop :=
  match courses with
  | [] => True
  | course :: rest =>
      (∀ prereq, prereq ∈ default [] (sub_prerequisites course) → prereq ∈ seen)
      ∧ prerequisitesMet ({[ sub_course_id course ]} ∪ seen) rest
  end.

(** * Properties *)

(** ** The string primitives on sample inputs *)

Example parseInt_samples :
  JS.parseInt (Some "2024") = Some 2024
  ∧ JS.parseInt (Some " -12abc") = Some (-12)
  ∧ JS.parseInt (Some "0x1F") = Some 31
  ∧ JS.parseInt (Some "") = None
  ∧ JS.parseInt (Some "Fall") = None
  ∧ JS.parseInt None = None.
Proof. by vm_compute. Qed.

Example split_space_samples :
  JS.split_space "Fall 2024" = ["Fall"; "2024"]
  ∧ JS.split_space "Fall" = ["Fall"]
  ∧ JS.split_space "" = [""]
  ∧ JS.split_space "Fall  2024" = ["Fall"; ""; "2024"].
Proof. by vm_compute. Qed.

Example parseSemester_samples :
  parseSemester (Some "Fall 2024") = Ok {| ps_season := "fall"; ps_year := Some 2024 |}
  ∧ parseSemester (Some "Autumn") = Ok {| ps_season := "autumn"; ps_year := None |}
  ∧ parseSemester None = Throw "TypeError".
Proof. by vm_compute. Qed.

Example parsePrerequisites_samples :
  parsePrerequisites "Prerequisite: CMSC 131; and MATH140 or ENGL101H." =
    ["CMSC131"; "MATH140"; "ENGL101H"]
  ∧ parsePrerequisites "ABCDE123 and cmsc131" = ["BCDE123"]
  ∧ parsePrerequisites "" = [].
Proof. by vm_compute. Qed.

Example semesterKey_samples :
  semesterKey {| season := Some "fall"; year := 2024 |} = "fall 2024"
  ∧ semesterKey {| season := None; year := 2024 |} = "undefined 2024".
Proof. by vm_compute. Qed.

Example sequence_with_unknown_start :
  generateSemesterSequence
    {| ps_season := "autumn"; ps_year := Some 2024 |}
    {| ps_season := "spring"; ps_year := Some 2024 |}
  = [ {| season := None; year := 2024 |}; {| season := Some "spring"; year := 2024 |} ].
Proof. by vm_compute. Qed.

(** ** The semester sequence *)

Lemma sequenceFrom_step endYear endIndex currentYear currentSeasonIndex :
  sequenceFrom endYear endIndex currentYear currentSeasonIndex =
  if inRange currentYear currentSeasonIndex endYear endIndex
  then {| season := seasons_at currentSeasonIndex; year := currentYear |}
         :: (if 3 <=? currentSeasonIndex + 1
             then sequenceFrom endYear endIndex (currentYear + 1) 0
             else sequenceFrom endYear endIndex currentYear (currentSeasonIndex + 1))
  else [].
Proof.
  rewrite sequenceFrom_equation_1.
  unfold sequenceFrom_unfold_clause_1.
  destruct (decide (inRange currentYear currentSeasonIndex endYear endIndex = true))
    as [Hin|Hout].
  - unfold sequenceFrom_unfold_clause_1_clause_2.
    destruct (decide (3 <= currentSeasonIndex + 1)) as [Hw|Hw]; rewrite Hin.
    + by rewrite (proj2 (Z.leb_le _ _) Hw).
    + by rewrite (proj2 (Z.leb_gt _ _)); [|lia].
  - by apply not_true_is_false in Hout as ->.
Qed.

Lemma termOrdinal_next t : termOrdinal (nextTerm t) = termOrdinal t + 1.
Proof. destruct t as [[] y]; unfold termOrdinal, nextTerm; simpl; lia. Qed.

Lemma termOrdinal_inj t1 t2 : termOrdinal t1 = termOrdinal t2 → t1 = t2.
Proof.
  destruct t1 as [[] y1], t2 as [[] y2]; unfold termOrdinal; simpl; intros H;
    first [ f_equal; lia | exfalso; lia ].
Qed.

Lemma seasons_indexOf_name s : seasons_indexOf (seasonName s) = seasonOrdinal s.
Proof. by destruct s. Qed.

Lemma seasons_at_ordinal s : seasons_at (seasonOrdinal s) = Some (seasonName s).
Proof. by destruct s. Qed.

Lemma inRange_ordinal currentYear endYear ci ei :
  0 <= ci <= 2 → -1 <= ei <= 2 →
  inRange currentYear ci endYear ei = (3 * currentYear + ci <=? 3 * endYear + ei).
Proof.
  intros Hc He. unfold inRange.
  destruct (Z.ltb_spec currentYear endYear), (Z.eqb_spec currentYear endYear),
    (Z.leb_spec ci ei), (Z.leb_spec (3 * currentYear + ci) (3 * endYear + ei));
    simpl; try reflexivity; lia.
Qed.

(** From a valid term on, the loop pushes the walk up to the end ordinal. *)
Lemma sequenceFrom_walk n : ∀ t endYear endIndex,
  -1 <= endIndex <= 2 →
  n = Z.to_nat (3 * endYear + endIndex - termOrdinal t + 1) →
  sequenceFrom endYear endIndex (term_year t) (seasonOrdinal (term_season t))
  = semesterOf <$> termWalk n t.
Proof.
  induction n as [|n IH]; intros t endYear endIndex He Hn;
    rewrite sequenceFrom_step, inRange_ordinal by (destruct t as [[] ?]; simpl; lia);
    fold (termOrdinal t).
  - rewrite (proj2 (Z.leb_gt _ _)) by lia. reflexivity.
  - rewrite (proj2 (Z.leb_le _ _)) by lia. simpl termWalk. rewrite fmap_cons.
    f_equal.
    + unfold semesterOf. by rewrite seasons_at_ordinal.
    + rewrite <- (IH (nextTerm t) endYear endIndex He)
        by (rewrite termOrdinal_next; lia).
      by destruct t as [[] y].
Qed.

Lemma termWalk_last n : ∀ t, last (termWalk (S n) t) = Some (Nat.iter n nextTerm t).
Proof.
  induction n as [|n IH]; intros t; [reflexivity|].
  change (termWalk (S (S n)) t) with (t :: termWalk (S n) (nextTerm t)).
  rewrite last_cons, IH. simpl. f_equal.
  clear IH. induction n as [|n IHn]; [reflexivity|]. simpl. by rewrite IHn.
Qed.

Lemma termWalk_length n : ∀ t, length (termWalk n t) = n.
Proof. induction n as [|n IH]; intros t; simpl; [done|]. by rewrite IH. Qed.

Lemma termOrdinal_iter n t :
  termOrdinal (Nat.iter n nextTerm t) = termOrdinal t + Z.of_nat n.
Proof.
  induction n as [|n IH]; simpl; [lia|]. rewrite termOrdinal_next, IH. lia.
Qed.

(** C6.  For valid terms with [start] not after [target], the sequencer
    returns exactly the walk spring, summer, fall, spring of the next year,
    ... that begins with [start] and ends with [target]: nothing is
    missing and nothing follows [target]. *)
Theorem sequencer_is_inclusive_walk (start target : Term) :
  termOrdinal start <= termOrdinal target →
  generateSemesterSequence (parsedTerm start) (parsedTerm target)
  = semesterOf <$> termsBetween start target
  ∧ head (termsBetween start target) = Some start
  ∧ last (termsBetween start target) = Some target
  ∧ Z.of_nat (length (generateSemesterSequence (parsedTerm start) (parsedTerm target)))
    = termOrdinal target - termOrdinal start + 1.
Proof.
  intros Hle.
  assert (Hseq : generateSemesterSequence (parsedTerm start) (parsedTerm target)
                 = semesterOf <$> termsBetween start target).
  { unfold generateSemesterSequence, parsedTerm, termsBetween; simpl.
    rewrite !seasons_indexOf_name.
    apply sequenceFrom_walk; [destruct target as [[] ?]; simpl; lia|].
    unfold termOrdinal; f_equal; lia. }
  split; [exact Hseq|].
  unfold termsBetween in *.
  remember (Z.to_nat (termOrdinal target - termOrdinal start + 1)) as n eqn:Hn.
  destruct n as [|n]; [lia|].
  split; [reflexivity|]. split.
  - rewrite termWalk_last. f_equal. apply termOrdinal_inj.
    rewrite termOrdinal_iter. lia.
  - rewrite Hseq, length_fmap.
    rewrite termWalk_length. lia.
Qed.

(** The scenario of C6, obtained from the theorem: fall 2024 through
    spring 2026 is five terms, the last being spring 2026. *)
Lemma sequencer_fall2024_spring2026 :
  generateSemesterSequence
    {| ps_season := "fall"; ps_year := Some 2024 |}
    {| ps_season := "spring"; ps_year := Some 2026 |}
  = [ {| season := Some "fall"; year := 2024 |};
      {| season := Some "spring"; year := 2025 |};
      {| season := Some "summer"; year := 2025 |};
      {| season := Some "fall"; year := 2025 |};
      {| season := Some "spring"; year := 2026 |} ].
Proof.
  refine (eq_trans (proj1 (sequencer_is_inclusive_walk
            {| term_season := Fall; term_year := 2024 |}
            {| term_season := Spring; term_year := 2026 |} _)) _).
  - vm_compute. discriminate.
  - reflexivity.
Defined.

(** ** Sums of credits *)


Lemma fold_left_total {A} (f : A → Z) (l : list A) (a : Z) :
  fold_left (λ acc x, acc + f x) l a = a + total f l.
Proof.
  unfold total. revert a.
  induction l as [|x l IH]; intros a; simpl; [lia|].
  rewrite (IH (a + f x)), (IH (0 + f x)). lia.
Qed.

Lemma total_nil {A} (f : A → Z) : total f [] = 0.
Proof. reflexivity. Qed.

Lemma total_cons {A} (f : A → Z) x l : total f (x :: l) = f x + total f l.
Proof. unfold total at 1. simpl. rewrite fold_left_total. lia. Qed.

Lemma total_app {A} (f : A → Z) l1 l2 : total f (l1 ++ l2) = total f l1 + total f l2.
Proof.
  induction l1 as [|x l1 IH]; simpl; [rewrite total_nil; lia|].
  rewrite !total_cons, IH. lia.
Qed.

Lemma total_fmap {A B} (f : B → Z) (g : A → B) l : total f (g <$> l) = total (f ∘ g) l.
Proof.
  induction l as [|x l IH]; [reflexivity|].
  rewrite fmap_cons, !total_cons, IH. reflexivity.
Qed.

Lemma total_filter {A} (f : A → Z) (P : A → Prop) `{!∀ x, Decision (P x)} l :
  (∀ x, x ∈ l → ¬ P x → f x = 0) → total f (filter P l) = total f l.
Proof.
  induction l as [|x l IH]; intros H0; [reflexivity|].
  rewrite filter_cons. destruct (decide (P x)) as [Hx|Hx].
  - rewrite !total_cons, IH; [done|]. intros y Hy. apply H0. by right.
  - rewrite total_cons, IH, (H0 x); [lia|by left|done|].
    intros y Hy. apply H0. by right.
Qed.

Lemma sumCredits_total courses : sumCredits courses = total pc_credits courses.
Proof. reflexivity. Qed.

(** ** The placement loops *)

Section planner.

Context (requirements : list Requirement).
Context (courseInfo : gmap string CourseInfo).
Context (maxCreditsPerSemester : Z).


(** A property of the state that every placement keeps holds after the
    loop over the courses of a requirement. *)
Lemma planCourses_ind (P : PlanState → Prop) key label courseIds :
  (∀ courseId course st,
      courseId ∈ courseIds → placeable courseInfo maxCreditsPerSemester courseId course st →
      P st → P (place key label courseId course st)) →
  ∀ st, P st → P (planCourses courseInfo maxCreditsPerSemester key label courseIds st).
Proof.
  induction courseIds as [|courseId rest IH]; intros Hplace st HP; simpl; [done|].
  assert (Hrest : ∀ courseId' course st',
             courseId' ∈ rest → placeable courseInfo maxCreditsPerSemester courseId' course st' →
             P st' → P (place key label courseId' course st')).
  { intros ? ? ? Hin. apply Hplace. by right. }
  case_bool_decide as Hdone; [by apply IH|].
  destruct (Z.leb_spec maxCreditsPerSemester (currentCredits st)) as [Hfull|Hroom];
    [done|].
  destruct (courseInfo !! courseId) as [course|] eqn:Hinfo; [|by apply IH].
  destruct (prereqsSatisfied course st) eqn:Hpre; [|by apply IH].
  apply IH; [done|]. apply Hplace; [by left| |done].
  by repeat split.
Qed.

Lemma planRequirements_ind (P : PlanState → Prop) key (reqs : list Requirement) :
  (∀ req courseIds courseId course st,
      req ∈ reqs → courses req = Some courseIds → courseId ∈ courseIds →
      placeable courseInfo maxCreditsPerSemester courseId course st →
      P st → P (place key (category req) courseId course st)) →
  ∀ st, P st →
    P (fold_left (planRequirement courseInfo maxCreditsPerSemester key) reqs st).
Proof.
  induction reqs as [|req reqs IH]; intros Hplace st HP; simpl; [done|].
  apply IH.
  - intros ? ? ? ? ? Hin. apply Hplace. by right.
  - unfold planRequirement. destruct (courses req) as [courseIds|] eqn:Hcourses; [|done].
    apply planCourses_ind; [|done].
    intros courseId course st' Hin. by apply (Hplace req courseIds); [left|..].
Qed.

Lemma planSemester_ind (P : PlanState → Prop) semester st :
  (∀ req courseIds courseId course st',
      req ∈ requirements → courses req = Some courseIds → courseId ∈ courseIds →
      placeable courseInfo maxCreditsPerSemester courseId course st' →
      P st' → P (place (semesterKey semester) (category req) courseId course st')) →
  P (resetCredits st) →
  P (planSemester requirements courseInfo maxCreditsPerSemester st semester).
Proof. intros Hplace HP. unfold planSemester. by apply planRequirements_ind. Qed.

Lemma planLoop_ind (P : PlanState → Prop) availableSemesters :
  (∀ key req courseIds courseId course st,
      req ∈ requirements → courses req = Some courseIds → courseId ∈ courseIds →
      placeable courseInfo maxCreditsPerSemester courseId course st →
      P st → P (place key (category req) courseId course st)) →
  (∀ st, P st → P (resetCredits st)) →
  ∀ st, P st →
    P (planLoop requirements courseInfo maxCreditsPerSemester availableSemesters st).
Proof.
  intros Hplace Hreset.
  induction availableSemesters as [|semester sems IH]; intros st HP; simpl; [done|].
  apply IH, planSemester_ind; [|by apply Hreset].
  intros req courseIds courseId course st'. apply Hplace.
Qed.

End planner.

(** ** The keys of the semesters of a sequence are distinct *)


Lemma seasons_at_index currentYear ci :
  -1 <= ci <= 2 →
  validSeason (seasons_at ci)
  ∧ semesterIndex {| season := seasons_at ci; year := currentYear |} = 3 * currentYear + ci.
Proof.
  intros Hci.
  assert (Hcases : ci = -1 ∨ ci = 0 ∨ ci = 1 ∨ ci = 2) by lia.
  clear Hci. unfold validSeason, semesterIndex.
  destruct Hcases as [-> | [-> | [-> | ->]]]; vm_compute seasons_at;
    (split; [set_solver | vm_compute seasons_indexOf; cbn; lia]).
Qed.

Lemma sequenceFrom_increasing (n : nat) : ∀ endYear endIndex currentYear ci,
  -1 <= ci <= 2 →
  (Z.to_nat (3 * (endYear - currentYear) + Z.max 0 (2 - ci) + 1) < n)%nat →
  Forall (λ sem, validSeason (season sem) ∧ 3 * currentYear + ci <= semesterIndex sem)
    (sequenceFrom endYear endIndex currentYear ci)
  ∧ NoDup (sequenceFrom endYear endIndex currentYear ci).
Proof.
  induction n as [|n IH]; intros endYear endIndex currentYear ci Hci Hn; [lia|].
  rewrite sequenceFrom_step.
  destruct (inRange currentYear ci endYear endIndex) eqn:Hin;
    [|split; constructor].
  destruct (seasons_at_index currentYear ci Hci) as [Hvalid Hindex].
  assert (Hnext : ∃ year' ci',
    (if 3 <=? ci + 1
     then sequenceFrom endYear endIndex (currentYear + 1) 0
     else sequenceFrom endYear endIndex currentYear (ci + 1))
    = sequenceFrom endYear endIndex year' ci'
    ∧ -1 <= ci' <= 2
    ∧ 3 * year' + ci' = 3 * currentYear + ci + 1
    ∧ (Z.to_nat (3 * (endYear - year') + Z.max 0 (2 - ci') + 1) < n)%nat).
  { unfold inRange in Hin.
    destruct (Z.leb_spec 3 (ci + 1)).
    - exists (currentYear + 1), 0. repeat split; lia.
    - exists currentYear, (ci + 1). repeat split; lia. }
  destruct Hnext as (year' & ci' & -> & Hci' & Hord & Hn').
  destruct (IH endYear endIndex year' ci' Hci' Hn') as [Hall Hnodup].
  split.
  - constructor; [split; [done|lia]|].
    eapply Forall_impl; [exact Hall|]. simpl. intros sem [? ?]. split; [done|lia].
  - constructor; [|done].
    intros Hhead. rewrite Forall_forall in Hall.
    apply Hall in Hhead as [_ Hlow]. lia.
Qed.

Lemma key_text_inj (s1 s2 : option string) (y1 y2 : string) :
  validSeason s1 → validSeason s2 →
  default "undefined" s1 +:+ " " +:+ y1 = default "undefined" s2 +:+ " " +:+ y2 →
  s1 = s2 ∧ y1 = y2.
Proof.
  unfold validSeason. rewrite !elem_of_cons, !elem_of_nil.
  intros [-> | [-> | [-> | [-> | []]]]] [-> | [-> | [-> | [-> | []]]]] Heq;
    simpl in Heq; try discriminate Heq;
    (split; [done|]; by do 2 apply (inj (String.app _)) in Heq).
Qed.

Lemma semesterKey_inj (a b : Semester) :
  validSeason (season a) → validSeason (season b) →
  semesterKey a = semesterKey b → a = b.
Proof.
  destruct a as [sa ya], b as [sb yb]. unfold semesterKey. simpl.
  intros Ha Hb Heq.
  destruct (key_text_inj _ _ _ _ Ha Hb Heq) as [-> Hy].
  f_equal. by apply (inj pretty).
Qed.

Lemma seasons_indexOf_range s : -1 <= seasons_indexOf s <= 2.
Proof. unfold seasons_indexOf. repeat case_match; lia. Qed.

Lemma semesterKeys_NoDup (start end_ : ParsedSemester) :
  NoDup (semesterKey <$> generateSemesterSequence start end_).
Proof.
  unfold generateSemesterSequence.
  destruct (ps_year start) as [startYear|]; [|constructor].
  destruct (ps_year end_) as [endYear|]; [|constructor].
  edestruct (sequenceFrom_increasing
               (S (Z.to_nat (3 * (endYear - startYear)
                             + Z.max 0 (2 - seasons_indexOf (ps_season start)) + 1)))
               endYear (seasons_indexOf (ps_season end_)) startYear
               (seasons_indexOf (ps_season start)))
    as [Hall Hnodup]; [apply seasons_indexOf_range|lia|].
  rewrite Forall_forall in Hall.
  apply NoDup_fmap_2_strong; [|done].
  intros a b Ha Hb. apply semesterKey_inj; by apply Hall.
Qed.

(** ** Invariants of the placement loops *)

Section placement.

Context (requirements : list Requirement).
Context (courseInfo : gmap string CourseInfo).
Context (maxCreditsPerSemester : Z).


Lemma placedOnce_place initial key label courseId course st :
  courseId ∉ completed st →
  placedOnce initial st → placedOnce initial (place key label courseId course st).
Proof.
  intros Hnew (Hcompleted & Hnodup & Hfresh).
  assert (Hinitial : courseId ∉ initial).
  { intros Hin. apply Hnew. rewrite Hcompleted. by apply elem_of_union_l. }
  assert (Hplanned : courseId ∉ sc_course_id <$> plannedCourses st).
  { intros Hin. apply Hnew. rewrite Hcompleted.
    by apply elem_of_union_r, elem_of_list_to_set. }
  unfold placedOnce, place; simpl. rewrite fmap_app; simpl. split_and!.
  - rewrite Hcompleted. apply set_eq. intros x.
    rewrite !elem_of_union, !elem_of_list_to_set, elem_of_app,
      list_elem_of_singleton, elem_of_singleton.
    tauto.
  - apply NoDup_app. split_and!; [done| |apply NoDup_singleton].
    by intros x Hx ->%list_elem_of_singleton.
  - intros x [Hx| ->%list_elem_of_singleton]%elem_of_app; [by apply Hfresh|done].
Qed.

Lemma planLoop_placedOnce initial availableSemesters st :
  placedOnce initial st →
  placedOnce initial
    (planLoop requirements courseInfo maxCreditsPerSemester availableSemesters st).
Proof.
  apply planLoop_ind.
  - intros key req courseIds courseId course st' _ _ _ [Hnew _].
    by apply placedOnce_place.
  - by intros st'.
Qed.


Lemma belowCapBefore_snoc new course :
  belowCapBefore maxCreditsPerSemester new → total sc_credits new < maxCreditsPerSemester →
  belowCapBefore maxCreditsPerSemester (new ++ [course]).
Proof.
  intros Hnew Hroom before course' after Heq.
  destruct after as [|x after _] using rev_ind.
  - apply app_inj_tail in Heq as [-> _]. done.
  - rewrite app_comm_cons, app_assoc in Heq.
    apply app_inj_tail in Heq as [-> _]. by eapply Hnew.
Qed.

Lemma planSemester_block st semester :
  ∃ new,
    plannedCourses (planSemester requirements courseInfo maxCreditsPerSemester st semester)
    = plannedCourses st ++ new
    ∧ termBlock maxCreditsPerSemester (semesterKey semester) new.
Proof.
  pose (P := λ st' : PlanState, ∃ new,
              plannedCourses st' = plannedCourses st ++ new
              ∧ currentCredits st' = total sc_credits new
              ∧ termBlock maxCreditsPerSemester (semesterKey semester) new).
  assert (HP : P (planSemester requirements courseInfo maxCreditsPerSemester st semester)).
  { apply planSemester_ind.
    - intros req courseIds courseId course st' _ _ _ (_ & Hroom & _ & _)
        (new & Hplanned & Hcredits & Hkeys & Hcap).
      eexists (new ++ [_]). unfold place, termBlock; simpl. split_and!.
      + by rewrite Hplanned, app_assoc.
      + rewrite total_app, total_cons, total_nil, Hcredits. simpl. lia.
      + apply Forall_app. split; [done|]. by constructor.
      + apply belowCapBefore_snoc; [done|]. by rewrite <- Hcredits.
    - exists []. unfold termBlock. simpl. split_and!; [by rewrite app_nil_r|done|done|].
      intros [|??] ? ? Heq; discriminate Heq. }
  destruct HP as (new & ? & _ & ?). by exists new.
Qed.

Lemma planLoop_blocks availableSemesters : ∀ st,
  ∃ blocks,
    plannedCourses (planLoop requirements courseInfo maxCreditsPerSemester availableSemesters st) = plannedCourses st ++ concat blocks
    ∧ Forall2 (λ semester new, termBlock maxCreditsPerSemester (semesterKey semester) new)
        availableSemesters blocks.
Proof.
  induction availableSemesters as [|semester sems IH]; intros st; simpl.
  - exists []. simpl. by rewrite app_nil_r.
  - destruct (planSemester_block st semester) as (new & Hnew & Hblock).
    destruct (IH (planSemester requirements courseInfo maxCreditsPerSemester st semester))
      as (blocks & Hblocks & Hall).
    exists (new :: blocks). split; [|by constructor].
    rewrite Hblocks, Hnew. simpl. by rewrite app_assoc.
Qed.

End placement.

(** ** Grouping the course sequence by semester key *)

Lemma filter_all {A} (P : A → Prop) `{!∀ x, Decision (P x)} (l : list A) :
  Forall P l → filter P l = l.
Proof.
  induction 1 as [|x l Hx _ IH]; [done|]. by rewrite filter_cons_True, IH.
Qed.

Lemma filter_none {A} (P : A → Prop) `{!∀ x, Decision (P x)} (l : list A) :
  Forall (λ x, ¬ P x) l → filter P l = [].
Proof.
  induction 1 as [|x l Hx _ IH]; [done|]. by rewrite filter_cons_False.
Qed.

(** Filtering the concatenation of blocks with distinct keys by one of the
    keys gives back the block of that key. *)
Lemma filter_blocks (P : string → list SequencedCourse → Prop)
    (keys : list string) (blocks : list (list SequencedCourse)) :
  NoDup keys →
  Forall2 (λ key new, Forall (λ course, sc_plannedSemester course = key) new ∧ P key new)
    keys blocks →
  Forall2 (λ key new,
             filter (λ course, sc_plannedSemester course = key) (concat blocks) = new
             ∧ P key new)
    keys blocks.
Proof.
  intros Hnodup Hall.
  cut (∀ prefix : list SequencedCourse,
    Forall (λ course, sc_plannedSemester course ∉ keys) prefix →
    Forall2 (λ key new,
               filter (λ course, sc_plannedSemester course = key) (prefix ++ concat blocks)
               = new ∧ P key new) keys blocks).
  { intros Hgen. apply (Hgen []). constructor. }
  induction Hall as [|key new keys blocks [Hkey HP] Hall IH]; intros prefix Hprefix;
    [constructor|].
  apply NoDup_cons in Hnodup as [Hfresh Hnodup].
  assert (Hrest : Forall (λ course, sc_plannedSemester course ∈ keys) (concat blocks)).
  { clear -Hall. induction Hall as [|k b ks bs [Hk _] _ IH]; simpl; [constructor|].
    apply Forall_app. split.
    - eapply Forall_impl; [exact Hk|]. simpl. intros c ->. by left.
    - eapply Forall_impl; [exact IH|]. simpl. intros c ?. by right. }
  constructor.
  - split; [|done]. simpl. rewrite !filter_app.
    rewrite (filter_none _ prefix), (filter_none _ (concat blocks)), (filter_all _ new).
    + by rewrite app_nil_r.
    + done.
    + eapply Forall_impl; [exact Hrest|]. simpl. intros c Hc Heq.
      by rewrite Heq in Hc.
    + eapply Forall_impl; [exact Hprefix|]. simpl. intros c Hc Heq.
      apply Hc. rewrite Heq. by left.
  - simpl. rewrite app_assoc. apply (IH Hnodup).
    apply Forall_app. split.
    + eapply Forall_impl; [exact Hprefix|]. simpl. intros c Hc ?. apply Hc. by right.
    + eapply Forall_impl; [exact Hkey|]. simpl. by intros c ->.
Qed.

(** ** The assembled plan *)

(** What a successful run returns, in terms of its intermediate values. *)
Lemma generateGraduationPlan_Ok fetch request plan :
  generateGraduationPlan fetch request = Ok plan →
  ∃ startSemester targetSemester majors_,
    parseSemester (startingSemester request) = Ok startSemester
    ∧ parseSemester (graduationTarget request) = Ok targetSemester
    ∧ majors request = Some majors_
    ∧ let availableSemesters := generateSemesterSequence startSemester targetSemester in
      let allRequirements := allRequirementsOf majors_ (default [] (minors request)) in
      let courseSequence :=
        courseSequenceOf fetch allRequirements (completedCourses request)
          availableSemesters (maxCreditsPerSemester request) in
      let semesters := buildSemesters availableSemesters courseSequence in
      plan =
      {| gp_majors := majors_;
         gp_minors := default [] (minors request);
         gp_semesters := filter (λ sem, (0 < length (sp_courses sem))%nat) semesters;
         gp_totalCredits :=
           total sp_totalCredits semesters + total cc_credits (completedCourses request);
         gp_completionDate := default EmptyString (graduationTarget request);
         gp_warnings := generateWarnings semesters (maxCreditsPerSemester request);
         gp_unmetRequirements := findUnmetRequirements allRequirements courseSequence |}.
Proof.
  unfold generateGraduationPlan, bindExn. intros Hrun.
  destruct (parseSemester (startingSemester request)) as [startSemester|]; [|done].
  destruct (parseSemester (graduationTarget request)) as [targetSemester|]; [|done].
  destruct (majors request) as [majors_|]; [|done].
  exists startSemester, targetSemester, majors_. split_and!; try done.
  by injection Hrun as <-.
Qed.

Lemma buildSemesters_elem availableSemesters courseSequence sem :
  sem ∈ buildSemesters availableSemesters courseSequence →
  ∃ semester,
    semester ∈ availableSemesters
    ∧ sp_semester sem = season semester
    ∧ sp_year sem = year semester
    ∧ sp_courses sem =
        toPlannedCourse <$>
          filter (λ course, sc_plannedSemester course = semesterKey semester) courseSequence
    ∧ sp_totalCredits sem = sumCredits (sp_courses sem).
Proof.
  unfold buildSemesters. rewrite <- list_fmap_compose.
  intros (semester & -> & Hin)%list_elem_of_fmap. by exists semester.
Qed.

(** The courses of all semester plans, in order, are the course sequence
    itself: grouping by key loses and repeats nothing. *)
Lemma buildSemesters_courses fetch allRequirements completedCourses start end_ cap :
  let availableSemesters := generateSemesterSequence start end_ in
  let courseSequence :=
    courseSequenceOf fetch allRequirements completedCourses availableSemesters cap in
  buildSemesters availableSemesters courseSequence ≫= sp_courses
  = toPlannedCourse <$> courseSequence.
Proof.
  intros availableSemesters courseSequence.
  unfold courseSequence, courseSequenceOf, planCourseSequence.
  match goal with
  | |- context [planLoop ?reqs ?info ?cap' ?sems ?st] =>
      destruct (planLoop_blocks reqs info cap' sems st) as (blocks & Hplanned & Hblocks)
  end.
  simpl in Hplanned. fold availableSemesters in Hplanned, Hblocks. rewrite Hplanned.
  assert (Hkeys : Forall2 (λ key new,
             filter (λ course, sc_plannedSemester course = key) (concat blocks) = new
             ∧ True) (semesterKey <$> availableSemesters) blocks).
  { apply filter_blocks; [apply semesterKeys_NoDup|].
    apply Forall2_fmap_l. eapply Forall2_impl; [exact Hblocks|].
    simpl. by intros semester new [? _]. }
  apply Forall2_fmap_l in Hkeys.
  unfold buildSemesters. rewrite <- list_fmap_compose.
  cut (∀ whole,
    Forall2 (λ semester new,
               filter (λ course, sc_plannedSemester course = semesterKey semester) whole
               = new ∧ True) availableSemesters blocks →
    ((setTotalCredits ∘ buildSemester whole) <$> availableSemesters) ≫= sp_courses
    = toPlannedCourse <$> concat blocks).
  { intros Hcut. by apply Hcut. }
  clear. intros whole Hkeys.
  induction Hkeys as [|semester new sems blocks [Hnew _] _ IH]; [done|].
  simpl. rewrite fmap_app. f_equal; [|exact IH].
  by rewrite Hnew.
Qed.

Lemma bind_nonempty_courses (semesters : list SemesterPlan) :
  filter (λ sem, (0 < length (sp_courses sem))%nat) semesters ≫= sp_courses
  = semesters ≫= sp_courses.
Proof.
  induction semesters as [|sem semesters IH]; [done|].
  rewrite filter_cons. destruct (decide (0 < length (sp_courses sem))%nat) as [|Hempty].
  - by rewrite !bind_cons, IH.
  - rewrite bind_cons, IH. destruct (sp_courses sem); [done|simpl in Hempty; lia].
Qed.

(** The courses of the returned plan are the course sequence. *)
Lemma plan_courses fetch request plan :
  generateGraduationPlan fetch request = Ok plan →
  ∃ startSemester targetSemester majors_,
    majors request = Some majors_
    ∧ gp_semesters plan ≫= sp_courses
      = toPlannedCourse <$>
          courseSequenceOf fetch
            (allRequirementsOf majors_ (default [] (minors request)))
            (completedCourses request)
            (generateSemesterSequence startSemester targetSemester)
            (maxCreditsPerSemester request).
Proof.
  intros (startSemester & targetSemester & majors_ & _ & _ & Hmajors & ->)
    %generateGraduationPlan_Ok.
  exists startSemester, targetSemester, majors_. split; [done|]. simpl.
  rewrite bind_nonempty_courses. apply buildSemesters_courses.
Qed.

(** The part of the course sequence planned for one term of the sequence
    was pushed below the cap. *)
Lemma courseSequence_term fetch allRequirements completedCourses start end_ cap semester :
  semester ∈ generateSemesterSequence start end_ →
  belowCapBefore cap
    (filter (λ course, sc_plannedSemester course = semesterKey semester)
       (courseSequenceOf fetch allRequirements completedCourses
          (generateSemesterSequence start end_) cap)).
Proof.
  intros Hin. unfold courseSequenceOf, planCourseSequence.
  match goal with
  | |- context [planLoop ?reqs ?info ?cap' ?sems ?st] =>
      destruct (planLoop_blocks reqs info cap' sems st) as (blocks & Hplanned & Hblocks)
  end.
  simpl in Hplanned. rewrite Hplanned.
  assert (Hkeys : Forall2 (λ key new,
             filter (λ course, sc_plannedSemester course = key) (concat blocks) = new
             ∧ belowCapBefore cap new)
            (semesterKey <$> generateSemesterSequence start end_) blocks).
  { apply filter_blocks; [apply semesterKeys_NoDup|]. by apply Forall2_fmap_l. }
  apply Forall2_fmap_l in Hkeys.
  apply list_elem_of_lookup in Hin as [i Hi].
  destruct (Forall2_lookup_l _ _ _ _ _ Hkeys Hi) as (new & _ & Hnew & Hcap).
  simpl in Hnew. by rewrite Hnew.
Qed.


(** ** Credit totals *)

(** C8.  The total of the returned plan is the sum of the totals of its
    semester plans plus the sum of the credits of the completed courses;
    the total of a semester plan is the sum of the credits of its
    courses. *)
Theorem totalCredits_semesters_plus_completed fetch request plan :
  generateGraduationPlan fetch request = Ok plan →
  gp_totalCredits plan
  = fold_left (λ acc sem, acc + sp_totalCredits sem) (gp_semesters plan) 0
    + fold_left (λ acc course, acc + cc_credits course) (completedCourses request) 0
  ∧ ∀ sem, sem ∈ gp_semesters plan → sp_totalCredits sem = sumCredits (sp_courses sem).
Proof.
  intros (startSemester & targetSemester & majors_ & _ & _ & _ & ->)
    %generateGraduationPlan_Ok.
  simpl. split.
  - f_equal. symmetry. apply (total_filter sp_totalCredits).
    intros sem (semester & _ & _ & _ & _ & ->)%buildSemesters_elem Hempty.
    destruct (sp_courses sem); [done|simpl in Hempty; lia].
  - intros sem [_ Hin]%list_elem_of_filter.
    by apply buildSemesters_elem in Hin as (semester & _ & _ & _ & _ & ?).
Qed.

Lemma totalCredits_witness :
  ∃ plan,
    generateGraduationPlan Scenario.catalog Scenario.fiveCourses = Ok plan
    ∧ gp_totalCredits plan = 22
    ∧ gp_totalCredits plan
      = fold_left (λ acc sem, acc + sp_totalCredits sem) (gp_semesters plan) 0
        + fold_left (λ acc course, acc + cc_credits course)
            (completedCourses Scenario.fiveCourses) 0.
Proof.
  eexists. split; [vm_compute; reflexivity|]. split; [reflexivity|].
  apply (totalCredits_semesters_plus_completed Scenario.catalog Scenario.fiveCourses).
  vm_compute; reflexivity.
Defined.

(** ** No course twice *)

(** C9.  The identifiers of the courses of the returned plan are pairwise
    distinct, over all semesters together, and none of them is the
    identifier of a completed course. *)
Theorem course_placed_at_most_once fetch request plan :
  generateGraduationPlan fetch request = Ok plan →
  NoDup (pc_course_id <$> (gp_semesters plan ≫= sp_courses))
  ∧ ∀ courseId,
      courseId ∈ pc_course_id <$> (gp_semesters plan ≫= sp_courses) →
      courseId ∉ cc_course_id <$> completedCourses request.
Proof.
  intros (startSemester & targetSemester & majors_ & _ & ->)%plan_courses.
  rewrite <- list_fmap_compose.
  change (pc_course_id ∘ toPlannedCourse) with sc_course_id.
  unfold courseSequenceOf, planCourseSequence.
  match goal with
  | |- context [planLoop ?reqs ?info ?cap ?sems ?st] =>
      destruct (planLoop_placedOnce reqs info cap
                  (list_to_set (cc_course_id <$> completedCourses request)) sems st)
        as (_ & Hnodup & Hfresh)
  end.
  { split_and!; simpl; [by rewrite (right_id_L ∅ (∪))|constructor|].
    by intros ? ?%elem_of_nil. }
  split; [done|].
  intros courseId Hin Hcompleted. apply (Hfresh courseId Hin).
  by apply elem_of_list_to_set.
Qed.

Lemma course_placed_at_most_once_witness :
  ∃ plan,
    generateGraduationPlan Scenario.catalog Scenario.fiveCourses = Ok plan
    ∧ pc_course_id <$> (gp_semesters plan ≫= sp_courses)
      = ["MATH140"; "CMSC131"; "MATH141"; "CMSC132"; "STAT400"]
    ∧ NoDup (pc_course_id <$> (gp_semesters plan ≫= sp_courses)).
Proof.
  eexists. split; [vm_compute; reflexivity|]. split; [reflexivity|].
  apply (course_placed_at_most_once Scenario.catalog Scenario.fiveCourses).
  vm_compute; reflexivity.
Defined.

(** ** The credit cap *)

(** C2 fails as stated: with a cap of 15 the fall term of this plan holds
    four courses of four credits each, placed while the running total was
    0, 4, 8 and 12. *)
Lemma term_total_exceeds_cap :
  ∃ plan,
    generateGraduationPlan Scenario.catalog Scenario.fiveCourses = Ok plan
    ∧ maxCreditsPerSemester Scenario.fiveCourses = 15
    ∧ (λ sem, (sp_semester sem, sp_year sem,
               pc_course_id <$> sp_courses sem, sumCredits (sp_courses sem)))
        <$> gp_semesters plan
      = [ (Some "fall", 2024, ["MATH140"; "CMSC131"; "MATH141"; "CMSC132"], 16);
          (Some "spring", 2025, ["STAT400"], 3) ].
Proof. eexists. split; [vm_compute; reflexivity|]. split; reflexivity. Qed.

(** C2, amended.  In every term of the plan, each course was placed while
    the credits of the courses placed before it in that term were strictly
    below the cap.  The total of a term is therefore less than the cap plus
    the credits of its last course, and a term whose total exceeds the cap
    is reported by an "Overloaded" warning. *)
Theorem credits_below_cap_at_placement fetch request plan sem :
  generateGraduationPlan fetch request = Ok plan →
  sem ∈ gp_semesters plan →
  (∀ before course after,
      sp_courses sem = before ++ course :: after →
      sumCredits before < maxCreditsPerSemester request)
  ∧ (∀ before last,
      sp_courses sem = before ++ [last] →
      sp_totalCredits sem < maxCreditsPerSemester request + pc_credits last)
  ∧ (maxCreditsPerSemester request < sp_totalCredits sem →
      overloaded sem ∈ gp_warnings plan).
Proof.
  intros (startSemester & targetSemester & majors_ & _ & _ & _ & ->)
    %generateGraduationPlan_Ok.
  simpl. intros [_ Hin]%list_elem_of_filter.
  pose proof Hin as (semester & Hsemester & _ & _ & Hcourses & Htotal)%buildSemesters_elem.
  assert (Hbefore : ∀ before course after,
             sp_courses sem = before ++ course :: after →
             sumCredits before < maxCreditsPerSemester request).
  { intros before course after Heq. rewrite Hcourses in Heq.
    apply fmap_app_inv in Heq as (before' & rest' & -> & Hrest & Hsplit).
    symmetry in Hrest. apply fmap_cons_inv in Hrest as (course' & after' & _ & _ & ->).
    rewrite sumCredits_total, total_fmap.
    by eapply (courseSequence_term _ _ _ _ _ _ _ Hsemester). }
  split_and!.
  - exact Hbefore.
  - intros before last Heq. rewrite Htotal, Heq, sumCredits_total, total_app,
      total_cons, total_nil.
    pose proof (Hbefore before last [] Heq) as Hlt.
    rewrite sumCredits_total in Hlt. lia.
  - intros Hover. unfold generateWarnings. apply list_elem_of_bind.
    exists sem. split; [|done]. unfold warningsOf.
    rewrite (proj2 (Z.ltb_lt _ _) Hover). by left.
Qed.

Lemma credits_below_cap_witness :
  ∃ plan sem,
    generateGraduationPlan Scenario.catalog Scenario.fiveCourses = Ok plan
    ∧ sem ∈ gp_semesters plan
    ∧ pc_course_id <$> sp_courses sem = ["MATH140"; "CMSC131"; "MATH141"; "CMSC132"]
    ∧ (∀ before course after,
          sp_courses sem = before ++ course :: after →
          sumCredits before < maxCreditsPerSemester Scenario.fiveCourses).
Proof.
  eexists _, _. split; [vm_compute; reflexivity|].
  split; [apply list_elem_of_here|]. split; [reflexivity|].
  refine (proj1 (credits_below_cap_at_placement
                   Scenario.catalog Scenario.fiveCourses _ _ _ _));
    [vm_compute; reflexivity|apply list_elem_of_here].
Defined.

(** ** Prerequisites *)

(** C1 does not hold of the code.  On the scenario of the specification
    the planner puts MATH141 into fall 2024 together with its prerequisite
    MATH140: [completed.add(courseId)] runs as soon as MATH140 is pushed,
    so the test on the prerequisites of MATH141 succeeds within the same
    term. *)
Lemma prerequisite_in_same_term :
  ∃ plan,
    generateGraduationPlan Scenario.catalog Scenario.calculus = Ok plan
    ∧ (λ sem, (sp_semester sem, sp_year sem,
               (λ course, (pc_course_id course, pc_prerequisites course))
                 <$> sp_courses sem))
        <$> gp_semesters plan
      = [ (Some "fall", 2024, [ ("MATH140", []); ("MATH141", ["MATH140"]) ]) ].
Proof. eexists. split; [vm_compute; reflexivity|reflexivity]. Qed.

(** What the test on the prerequisites does ensure: every prerequisite of
    a planned course is completed initially or planned before the course
    in the course sequence, in an earlier term or in the same one. *)
Lemma prerequisites_planned_before requirements courseInfo completedCourses
    availableSemesters cap before course after prereq :
  planCourseSequence requirements courseInfo completedCourses availableSemesters cap
  = before ++ course :: after →
  prereq ∈ sc_prerequisites course →
  prereq ∈ completedCourses ∨ prereq ∈ sc_course_id <$> before.
Proof.
  unfold planCourseSequence.
  set (initial := list_to_set completedCourses : gset string).
  pose (P := λ st : PlanState,
    placedOnce initial st
    ∧ ∀ before course after prereq,
        plannedCourses st = before ++ course :: after →
        prereq ∈ sc_prerequisites course →
        prereq ∈ initial ∨ prereq ∈ sc_course_id <$> before).
  match goal with
  | |- plannedCourses ?final = _ → _ => cut (P final)
  end.
  { intros [_ Hfinal] Hsplit Hprereq.
    destruct (Hfinal _ _ _ _ Hsplit Hprereq) as [Hin|?]; [left|by right].
    by apply elem_of_list_to_set in Hin. }
  apply planLoop_ind.
  - intros key req courseIds courseId record st _ _ _ (Hfresh & _ & _ & Hprereqs)
      [Honce Hbefore].
    split; [by apply placedOnce_place|].
    intros before' course' after' prereq' Hsplit Hprereq'.
    unfold place in Hsplit; simpl in Hsplit.
    destruct after' as [|last after' _] using rev_ind.
    + apply app_inj_tail in Hsplit as [<- <-]. simpl in Hprereq'.
      unfold prereqsSatisfied in Hprereqs. rewrite forallb_forall in Hprereqs.
      assert (Hdone : bool_decide (prereq' ∈ completed st) = true)
        by by apply Hprereqs, list_elem_of_In.
      apply bool_decide_eq_true_1 in Hdone.
      destruct Honce as (Hcompleted & _). rewrite Hcompleted in Hdone.
      apply elem_of_union in Hdone as [?|?%elem_of_list_to_set]; [by left|by right].
    + rewrite app_comm_cons, app_assoc in Hsplit.
      apply app_inj_tail in Hsplit as [Hsplit _]. by eapply Hbefore.
  - by intros st.
  - split.
    + split_and!; simpl; [by rewrite (right_id_L ∅ (∪))|constructor|].
      by intros ? ?%elem_of_nil.
    + simpl. by intros [|??] ? ? ? ?.
Qed.

(** ** Unmet requirements *)

(** What [findUnmetRequirements] lists: the labels of the requirements
    that have a course list none of whose courses is planned. *)
Lemma findUnmetRequirements_spec allRequirements courseSequence label :
  label ∈ findUnmetRequirements allRequirements courseSequence ↔
  ∃ req courseIds,
    req ∈ allRequirements ∧ category req = label ∧ courses req = Some courseIds
    ∧ ∀ courseId, courseId ∈ courseIds → courseId ∉ sc_course_id <$> courseSequence.
Proof.
  unfold findUnmetRequirements. rewrite list_elem_of_fmap.
  setoid_rewrite list_elem_of_filter. unfold lacksPlannedCourse.
  split.
  - intros (req & -> & Hlacks & Hin).
    destruct (courses req) as [courseIds|] eqn:Hcourses; [|done].
    exists req, courseIds. split_and!; try done.
    intros courseId Hcourse Hplanned.
    apply negb_true_iff, not_true_iff_false in Hlacks. apply Hlacks.
    apply existsb_exists. exists courseId. split; [by apply list_elem_of_In|].
    by apply bool_decide_eq_true, elem_of_list_to_set.
  - intros (req & courseIds & Hin & <- & Hcourses & Hnone).
    exists req. split_and!; try done. rewrite Hcourses.
    apply negb_true_iff, not_true_iff_false.
    intros (courseId & Hcourse & Hplanned)%existsb_exists.
    apply (Hnone courseId); [by apply list_elem_of_In|].
    by apply bool_decide_eq_true, elem_of_list_to_set in Hplanned.
Qed.

(** C3 does not hold of the code.  The only course of "core" is completed,
    so [checkSatisfiedRequirements] reports the category as satisfied; yet
    [findUnmetRequirements], which looks at the planned courses only,
    lists it as unmet. *)
Lemma satisfied_category_listed_unmet :
  ∃ plan,
    generateGraduationPlan Scenario.catalog Scenario.writingDone = Ok plan
    ∧ gp_unmetRequirements plan = ["core"]
    ∧ gp_semesters plan = []
    ∧ checkSatisfiedRequirements
        [Scenario.requirement "core" ["ENGL101"]]
        (completedCourses Scenario.writingDone) = ["core"].
Proof. eexists. split; [vm_compute; reflexivity|]. by split_and!. Qed.

(** ** Categories that share a label *)

Lemma hasAllRequired_spec completedCourseIds req :
  hasAllRequired completedCourseIds req = true ↔
  ∃ courseIds,
    courses req = Some courseIds ∧ courseIds ≠ []
    ∧ ∀ courseId, courseId ∈ courseIds → courseId ∈ completedCourseIds.
Proof.
  unfold hasAllRequired. rewrite andb_true_iff, forallb_forall, Z.ltb_lt.
  split.
  - intros [Hall Hlen]. destruct (courses req) as [courseIds|]; [|simpl in Hlen; lia].
    exists courseIds. split_and!; [done|by intros ->|].
    intros courseId Hin%list_elem_of_In. by apply Hall, bool_decide_eq_true in Hin.
  - intros (courseIds & -> & Hne & Hall). simpl. split.
    + intros courseId Hin%list_elem_of_In. by apply bool_decide_eq_true, Hall.
    + destruct courseIds; [done|simpl; lia].
Qed.

(** C7.  The code on a major and a minor that both call a category
    "core": the one of the minor is not satisfied (MATH140 is not
    completed), [checkSatisfiedRequirements] pushes the label once, for
    the one of the major, and the filter by label then drops both.
    MATH140, which the catalog knows, is never planned, while
    [unmetRequirements] of the same run lists the label twice, once for
    each category. *)
Theorem twin_filtered_out :
  let allRequirements :=
    [Scenario.requirement "core" ["ENGL101"]; Scenario.requirement "core" ["MATH140"]] in
  let completedIds : gset string :=
    list_to_set (cc_course_id <$> completedCourses Scenario.twinLabels) in
  hasAllRequired completedIds (Scenario.requirement "core" ["ENGL101"]) = true
  ∧ hasAllRequired completedIds (Scenario.requirement "core" ["MATH140"]) = false
  ∧ checkSatisfiedRequirements allRequirements (completedCourses Scenario.twinLabels)
    = ["core"]
  ∧ remainingRequirementsOf allRequirements (completedCourses Scenario.twinLabels) = []
  ∧ is_Some (storedRecord Scenario.catalog "MATH140")
  ∧ ∃ plan,
      generateGraduationPlan Scenario.catalog Scenario.twinLabels = Ok plan
      ∧ gp_semesters plan = []
      ∧ gp_unmetRequirements plan = ["core"; "core"].
Proof.
  split_and!; [by vm_compute..|by eexists|].
  eexists. split; [vm_compute; reflexivity|]. by split.
Qed.

(** What the filter keeps: categories are told apart by their label only,
    and a category takes part in placement exactly when no category with
    its label, itself or another, has a non-empty course list that is
    wholly completed. *)
Lemma remaining_requirements_by_label allRequirements completedCourses req :
  req ∈ remainingRequirementsOf allRequirements completedCourses ↔
  req ∈ allRequirements
  ∧ ¬ ∃ other courseIds,
        other ∈ allRequirements ∧ category other = category req
        ∧ courses other = Some courseIds ∧ courseIds ≠ []
        ∧ ∀ courseId, courseId ∈ courseIds →
            courseId ∈ cc_course_id <$> completedCourses.
Proof.
  unfold remainingRequirementsOf, checkSatisfiedRequirements.
  rewrite list_elem_of_filter, list_elem_of_fmap.
  setoid_rewrite list_elem_of_filter. setoid_rewrite hasAllRequired_spec.
  setoid_rewrite elem_of_list_to_set.
  split.
  - intros [Hnot Hin]. split; [done|].
    intros (other & courseIds & Hother & Hlabel & Hcourses & Hne & Hall).
    apply Hnot. exists other. split; [done|]. split; [|done]. by exists courseIds.
  - intros [Hin Hnot]. split; [|done].
    intros (other & Hlabel & (courseIds & Hcourses & Hne & Hall) & Hother).
    apply Hnot. by exists other, courseIds.
Qed.

(** ** Catalog lookups that fail *)


Lemma fetchOne_lookup fetch courseInfo courseId courseId' :
  fetchOne fetch courseInfo courseId !! courseId'
  = if decide (courseId = courseId')
    then match storedRecord fetch courseId with
         | Some record => Some record
         | None => courseInfo !! courseId'
         end
    else courseInfo !! courseId'.
Proof.
  unfold fetchOne, storedRecord.
  destruct (decide (courseId = courseId')) as [->|Hne].
  - destruct (fetch courseId'); by rewrite ?lookup_insert_eq.
  - destruct (fetch courseId); by rewrite ?lookup_insert_ne.
Qed.

Lemma fetchCourseInformation_lookup fetch courseIds courseId :
  fetchCourseInformation fetch courseIds !! courseId
  = if decide (courseId ∈ courseIds) then storedRecord fetch courseId else None.
Proof.
  unfold fetchCourseInformation.
  cut (∀ courseInfo : gmap string CourseInfo,
         fold_left (fetchOne fetch) courseIds courseInfo !! courseId
         = if decide (courseId ∈ courseIds)
           then match storedRecord fetch courseId with
                | Some record => Some record
                | None => courseInfo !! courseId
                end
           else courseInfo !! courseId).
  { intros Hcut. rewrite Hcut, lookup_empty. by destruct (storedRecord _ _). }
  induction courseIds as [|first rest IH]; intros courseInfo.
  - destruct (decide (courseId ∈ [])) as [Hin|]; [by apply elem_of_nil in Hin|done].
  - change (fold_left (fetchOne fetch) (first :: rest) courseInfo)
      with (fold_left (fetchOne fetch) rest (fetchOne fetch courseInfo first)).
    rewrite IH, fetchOne_lookup.
    destruct (decide (courseId ∈ first :: rest)) as [Hin|Hout],
      (decide (courseId ∈ rest)) as [Hrest|Hrest],
      (decide (first = courseId)) as [Heq|Hne];
      try done; try subst first; try (by destruct (storedRecord fetch courseId));
      exfalso;
      first [ by apply elem_of_cons in Hin as [?|?]
            | apply Hout; first [by left | by right] ].
Qed.

(** Only courses that have a record are ever planned. *)
Lemma planned_courses_have_record requirements courseInfo cap availableSemesters
    completedCourses course :
  course ∈ planCourseSequence requirements courseInfo completedCourses
             availableSemesters cap →
  is_Some (courseInfo !! sc_course_id course).
Proof.
  unfold planCourseSequence. revert course. apply Forall_forall.
  apply (planLoop_ind requirements courseInfo cap
           (λ st, Forall (λ course, is_Some (courseInfo !! sc_course_id course))
                    (plannedCourses st))).
  - intros key req courseIds courseId record st _ _ _ (_ & _ & Hrecord & _) Hall.
    unfold place; simpl. apply Forall_app. split; [done|].
    constructor; [|done]. simpl. by rewrite Hrecord.
  - by intros st.
  - constructor.
Qed.


Lemma set_add_elem elements course courseId :
  courseId ∈ set_add elements course ↔ courseId ∈ elements ∨ courseId = course.
Proof.
  unfold set_add. case_bool_decide as Hin.
  - split; [by left|]. by intros [?| ->].
  - by rewrite elem_of_app, list_elem_of_singleton.
Qed.

Lemma fold_set_add_elem courseIds : ∀ elements courseId,
  courseId ∈ fold_left set_add courseIds elements ↔
  courseId ∈ elements ∨ courseId ∈ courseIds.
Proof.
  induction courseIds as [|course rest IH]; intros elements courseId; simpl.
  - split; [by left|]. by intros [?|?%elem_of_nil].
  - rewrite IH, set_add_elem, elem_of_cons. tauto.
Qed.

(** The identifiers that are looked up are those listed by the remaining
    requirements. *)
Lemma allRequiredCourses_elem remainingRequirements courseId :
  courseId ∈ allRequiredCourses remainingRequirements ↔
  ∃ req courseIds,
    req ∈ remainingRequirements ∧ courses req = Some courseIds ∧ courseId ∈ courseIds.
Proof.
  unfold allRequiredCourses.
  cut (∀ elements,
         courseId ∈ fold_left
           (λ elements req, fold_left set_add (default [] (courses req)) elements)
           remainingRequirements elements ↔
         courseId ∈ elements
         ∨ ∃ req courseIds,
             req ∈ remainingRequirements ∧ courses req = Some courseIds
             ∧ courseId ∈ courseIds).
  { intros Hcut. rewrite Hcut. split; [|by right]. by intros [?%elem_of_nil|?]. }
  induction remainingRequirements as [|req reqs IH]; intros elements; simpl.
  - split; [by left|]. by intros [?|(? & ? & ?%elem_of_nil & _)].
  - rewrite IH, fold_set_add_elem. split.
    + intros [[?|Hin]|(req' & courseIds & Hreq & Hcourses & Hin)].
      * by left.
      * right. destruct (courses req) as [courseIds|] eqn:Hcourses;
          [|by apply elem_of_nil in Hin].
        exists req, courseIds. split_and!; [by left|done..].
      * right. exists req', courseIds. split_and!; [by right|done..].
    + intros [?|(req' & courseIds & [->|Hreq]%elem_of_cons & Hcourses & Hin)].
      * by left; left.
      * left; right. by rewrite Hcourses.
      * right. by exists req', courseIds.
Qed.


(** A course for which the catalog answers without a record (a status
    that is not OK, or a result that is not a non-empty array) has no entry
    in [courseInfo]; the guard [if (!course) continue] then skips it in
    every term. *)
Lemma unknown_course_never_planned fetch request plan courseId :
  fetch courseId = FetchNotOk ∨ fetch courseId = FetchNoCourse →
  generateGraduationPlan fetch request = Ok plan →
  (∀ courseIds, fetchCourseInformation fetch courseIds !! courseId = None)
  ∧ courseId ∉ pc_course_id <$> (gp_semesters plan ≫= sp_courses).
Proof.
  intros Hnone Hplan.
  assert (Hstored : storedRecord fetch courseId = None).
  { unfold storedRecord. by destruct Hnone as [-> | ->]. }
  split.
  - intros courseIds. rewrite fetchCourseInformation_lookup, Hstored.
    by destruct (decide _).
  - apply plan_courses in Hplan as (startSemester & targetSemester & majors_ & _ & ->).
    rewrite <- list_fmap_compose.
    intros (course & Hid & Hcourse)%list_elem_of_fmap.
    apply planned_courses_have_record in Hcourse as [record Hrecord].
    rewrite fetchCourseInformation_lookup in Hrecord.
    simpl in Hid. rewrite <- Hid, Hstored in Hrecord. by destruct (decide _).
Qed.

(** ** Validation of the request *)

(** With a cap that is not positive the test [currentCredits >= cap]
    breaks out of every loop over courses: nothing is planned. *)
Lemma nothing_planned_without_capacity requirements courseInfo completedCourses
    availableSemesters cap :
  cap <= 0 →
  planCourseSequence requirements courseInfo completedCourses availableSemesters cap = [].
Proof.
  intros Hcap. unfold planCourseSequence.
  eapply proj1.
  apply (planLoop_ind requirements courseInfo cap
           (λ st, plannedCourses st = [] ∧ 0 <= currentCredits st)).
  - intros key req courseIds courseId course st _ _ _ (_ & Hroom & _) [_ Hcredits]. lia.
  - by intros st [? _].
  - done.
Qed.

Lemma no_courses_no_semesters availableSemesters :
  filter (λ sem, (0 < length (sp_courses sem))%nat) (buildSemesters availableSemesters [])
  = [].
Proof.
  apply filter_none, Forall_forall.
  intros sem (semester & _ & _ & _ & -> & _)%buildSemesters_elem. simpl. lia.
Qed.




(** ** Which category a course is credited to *)


Lemma find_first {A} (f : A → bool) (l : list A) (x : A) :
  find f l = Some x →
  ∃ before after, l = before ++ x :: after ∧ f x = true ∧ Forall (λ y, f y = false) before.
Proof.
  induction l as [|y l IH]; simpl; [done|].
  destruct (f y) eqn:Hy.
  - intros [= ->]. exists [], l. by split_and!.
  - intros (before & after & -> & Hx & Hbefore)%IH.
    exists (y :: before), after. split_and!; [done..|by constructor].
Qed.

Lemma forallb_false {A} (f : A → bool) (l : list A) :
  forallb f l = false → ∃ x, x ∈ l ∧ f x = false.
Proof.
  induction l as [|y l IH]; simpl; [done|].
  destruct (f y) eqn:Hy; simpl.
  - intros (x & Hx & Hfx)%IH. exists x. split; [by right|done].
  - intros _. exists y. split; [by left|done].
Qed.

Section crediting.

Context (courseInfo : gmap string CourseInfo).
Context (cap : Z).

(** The loops only add to [completed]. *)
Lemma planRequirements_completed key reqs st courseId :
  courseId ∈ completed st → courseId ∈ completed (fold_left (planRequirement courseInfo cap key) reqs st).
Proof.
  intros Hin.
  apply (planRequirements_ind courseInfo cap (λ st', courseId ∈ completed st'));
    [|done].
  intros req courseIds courseId' course st' _ _ _ _ Hst'.
  unfold place; simpl. by apply elem_of_union_r.
Qed.

(** The records pushed by a run of the loop over some requirements share
    every property that each single push establishes. *)
Lemma planRequirements_new (Φ : SequencedCourse → Prop) key reqs st :
  (∀ req courseIds courseId course,
      req ∈ reqs → courses req = Some courseIds → courseId ∈ courseIds →
      courseInfo !! courseId = Some course →
      Φ (plannedEntry key (category req) courseId course)) →
  ∃ new,
    plannedCourses (fold_left (planRequirement courseInfo cap key) reqs st) = plannedCourses st ++ new
    ∧ Forall Φ new.
Proof.
  intros Hpush.
  apply (planRequirements_ind courseInfo cap
           (λ st', ∃ new, plannedCourses st' = plannedCourses st ++ new ∧ Forall Φ new)).
  - intros req courseIds courseId course st' Hreq Hcourses Hin (_ & _ & Hrecord & _)
      (new & Hplanned & Hall).
    exists (new ++ [plannedEntry key (category req) courseId course]).
    unfold place; simpl. split; [by rewrite Hplanned, app_assoc|].
    apply Forall_app. split; [done|]. constructor; [|done]. by eapply Hpush.
  - exists []. by rewrite app_nil_r.
Qed.


Lemma planCourses_completed key label courseIds st courseId :
  courseId ∈ completed st →
  courseId ∈ completed (planCourses courseInfo cap key label courseIds st).
Proof.
  intros Hin.
  apply (planCourses_ind courseInfo cap (λ st', courseId ∈ completed st')); [|done].
  intros courseId' course st' _ _ Hst'. unfold place; simpl. by apply elem_of_union_r.
Qed.

Lemma planCourses_blocked key label courseId courseIds :
  courseId ∈ courseIds → ∀ st,
  blocked courseInfo cap courseId (completed st) (planCourses courseInfo cap key label courseIds st).
Proof.
  induction courseIds as [|first rest IH]; intros Hin st; [by apply elem_of_nil in Hin|].
  assert (Hlater : courseId ∈ rest → ∀ st' : PlanState,
            completed st ⊆ completed st' →
            blocked courseInfo cap courseId (completed st)
              (planCourses courseInfo cap key label rest st')).
  { intros Hrest st' Hsub.
    destruct (IH Hrest st') as [?|[?|[?|(course & prereq & ? & ? & Hprereq)]]].
    - by left.
    - by right; left.
    - by right; right; left.
    - right; right; right. exists course, prereq. split_and!; [done..|].
      intros Hbase. by apply Hprereq, Hsub. }
  simpl. case_bool_decide as Hdone.
  - apply elem_of_cons in Hin as [->|Hrest]; [|by apply Hlater].
    left. by apply planCourses_completed.
  - destruct (Z.leb_spec cap (currentCredits st)) as [Hfull|Hroom];
      [by right; left|].
    destruct (courseInfo !! first) as [course|] eqn:Hrecord.
    + destruct (prereqsSatisfied course st) eqn:Hprereqs.
      * apply elem_of_cons in Hin as [->|Hrest].
        -- left. apply planCourses_completed. unfold place; simpl.
           by apply elem_of_union_l, elem_of_singleton.
        -- apply Hlater; [done|]. unfold place; simpl. apply union_subseteq_r.
      * apply elem_of_cons in Hin as [->|Hrest]; [|by apply Hlater].
        right; right; right.
        apply forallb_false in Hprereqs as (prereq & Hprereq & Hmissing).
        exists course, prereq. split_and!; [done..|].
        by apply bool_decide_eq_false in Hmissing.
    + apply elem_of_cons in Hin as [->|Hrest]; [|by apply Hlater].
      by right; right; left.
Qed.

(** Once a course is blocked in a term, a later requirement of that term
    can only place it if a prerequisite that was missing has been placed
    in between. *)
Lemma later_requirements key courseId base reqs st :
  blocked courseInfo cap courseId base st → base ⊆ completed st →
  ∃ new,
    plannedCourses (fold_left (planRequirement courseInfo cap key) reqs st)
    = plannedCourses st ++ new
    ∧ ∀ course,
        course ∈ new → sc_course_id course = courseId →
        ∃ prereq,
          prereq ∈ sc_prerequisites course ∧ (prereq ∉ base)
          ∧ prereq ∈ completed (fold_left (planRequirement courseInfo cap key) reqs st).
Proof.
  intros Hblocked Hbase.
  pose (P := λ st' : PlanState,
    completed st ⊆ completed st'
    ∧ (cap <= currentCredits st → currentCredits st' = currentCredits st)
    ∧ ∃ new,
        plannedCourses st' = plannedCourses st ++ new
        ∧ ∀ course,
            course ∈ new → sc_course_id course = courseId →
            ∃ prereq,
              prereq ∈ sc_prerequisites course ∧ (prereq ∉ base)
              ∧ prereq ∈ completed st').
  cut (P (fold_left (planRequirement courseInfo cap key) reqs st)).
  { intros (_ & _ & new & Hplanned & Hnew). by exists new. }
  apply planRequirements_ind.
  - intros req courseIds courseId' record st' _ _ _ (Hfresh & Hroom & Hrecord & Hprereqs)
      (Hsub & Hfull & new & Hplanned & Hnew).
    assert (Hnotfull : ¬ cap <= currentCredits st).
    { intros Hcap. specialize (Hfull Hcap). lia. }
    split_and!.
    + unfold place; simpl. by apply union_subseteq_r'.
    + by intros Hcap.
    + exists (new ++ [plannedEntry key (category req) courseId' record]).
      unfold place; simpl. split; [by rewrite Hplanned, app_assoc|].
      intros course [Hold|Hlast%list_elem_of_singleton]%elem_of_app Hid.
      * destruct (Hnew course Hold Hid) as (prereq & ? & ? & ?).
        exists prereq. split_and!; [done..|]. by apply elem_of_union_r.
      * subst course. simpl in Hid. subst courseId'.
        destruct Hblocked as [Hdone|[Hcap|[Hnone|(record' & prereq & Hrecord' & Hin & Hmissing)]]].
        -- by apply Hsub in Hdone.
        -- done.
        -- by rewrite Hnone in Hrecord.
        -- rewrite Hrecord' in Hrecord. injection Hrecord as ->.
           exists prereq. simpl. split_and!; [done..|].
           apply elem_of_union_r.
           unfold prereqsSatisfied in Hprereqs. rewrite forallb_forall in Hprereqs.
           assert (Hdone : bool_decide (prereq ∈ completed st') = true)
             by by apply Hprereqs, list_elem_of_In.
           by apply bool_decide_eq_true_1 in Hdone.
  - split_and!; [done..|]. exists []. split; [by rewrite app_nil_r|].
    by intros course ?%elem_of_nil.
Qed.

(** Within one term, a course goes to the first requirement that lists
    it, unless one of its prerequisites is placed in that term. *)
Lemma term_crediting key reqs first courseId st :
  find (lists courseId) reqs = Some first →
  ∃ new,
    plannedCourses (fold_left (planRequirement courseInfo cap key) reqs st)
    = plannedCourses st ++ new
    ∧ ∀ course,
        course ∈ new → sc_course_id course = courseId →
        sc_satisfies course = [category first]
        ∨ ∃ prereq,
            prereq ∈ sc_prerequisites course ∧ (prereq ∉ completed st)
            ∧ prereq ∈ completed (fold_left (planRequirement courseInfo cap key) reqs st).
Proof.
  intros (before & after & -> & Hlists & Hbefore)%find_first.
  rewrite fold_left_app.
  change (first :: after) with ([first] ++ after). rewrite fold_left_app.
  set (s1 := fold_left (planRequirement courseInfo cap key) before st).
  set (s2 := fold_left (planRequirement courseInfo cap key) [first] s1).
  destruct (planRequirements_new (λ course, sc_course_id course ≠ courseId) key before st)
    as (new1 & Hplanned1 & Hnew1).
  { intros req courseIds courseId' record Hreq Hcourses Hin _. simpl. intros ->.
    rewrite Forall_forall in Hbefore. specialize (Hbefore req Hreq).
    unfold lists in Hbefore. rewrite Hcourses in Hbefore.
    by apply bool_decide_eq_false in Hbefore. }
  destruct (planRequirements_new (λ course, sc_satisfies course = [category first])
              key [first] s1) as (new2 & Hplanned2 & Hnew2).
  { by intros req courseIds courseId' record ->%list_elem_of_singleton _ _ _. }
  assert (Hsub1 : completed st ⊆ completed s1).
  { intros x. apply planRequirements_completed. }
  assert (Hsub2 : completed st ⊆ completed s2).
  { intros x Hx. by apply planRequirements_completed, Hsub1. }
  assert (Hblocked : blocked courseInfo cap courseId (completed st) s2).
  { unfold lists in Hlists.
    destruct (courses first) as [courseIds|] eqn:Hcourses; [|done].
    apply bool_decide_eq_true in Hlists.
    pose proof (planCourses_blocked key (category first) courseId courseIds Hlists s1)
      as Hs2.
    unfold s2; simpl. unfold planRequirement at 1. rewrite Hcourses.
    destruct Hs2 as [?|[?|[?|(record & prereq & ? & ? & Hmissing)]]].
    - by left.
    - by right; left.
    - by right; right; left.
    - right; right; right. exists record, prereq. split_and!; [done..|].
      intros Hst. by apply Hmissing, Hsub1. }
  destruct (later_requirements key courseId (completed st) after s2 Hblocked Hsub2)
    as (new3 & Hplanned3 & Hnew3).
  exists (new1 ++ new2 ++ new3). split.
  - fold s1 s2. rewrite Hplanned3. fold s1 in Hplanned1. fold s2 in Hplanned2.
    by rewrite Hplanned2, Hplanned1, !app_assoc.
  - rewrite Forall_forall in Hnew1, Hnew2.
    intros course [Hin|[Hin|Hin]%elem_of_app]%elem_of_app Hid.
    + by apply Hnew1 in Hin.
    + left. by apply Hnew2.
    + right. by apply Hnew3.
Qed.

End crediting.

Section crediting_loop.

Context (requirements : list Requirement).
Context (courseInfo : gmap string CourseInfo).
Context (cap : Z).


Lemma creditedToFirst_mono sequence1 sequence2 course :
  sequence1 ⊆ sequence2 →
  creditedToFirst requirements sequence1 course → creditedToFirst requirements sequence2 course.
Proof.
  intros Hsub Hcredited first Hfirst.
  destruct (Hcredited first Hfirst) as [?|(other & ? & ? & ?)]; [by left|].
  right. exists other. split_and!; [by apply Hsub|done..].
Qed.

(** What a term adds: records with the key of the term, whose
    identifiers are all that [completed] gains. *)
Lemma planSemester_new st semester :
  ∃ new,
    plannedCourses (planSemester requirements courseInfo cap st semester)
    = plannedCourses st ++ new
    ∧ Forall (λ course, sc_plannedSemester course = semesterKey semester) new
    ∧ ∀ courseId,
        courseId ∈ completed (planSemester requirements courseInfo cap st semester) →
        courseId ∈ completed st ∨ courseId ∈ sc_course_id <$> new.
Proof.
  apply (planSemester_ind requirements courseInfo cap
           (λ st', ∃ new,
              plannedCourses st' = plannedCourses st ++ new
              ∧ Forall (λ course, sc_plannedSemester course = semesterKey semester) new
              ∧ ∀ courseId,
                  courseId ∈ completed st' →
                  courseId ∈ completed st ∨ courseId ∈ sc_course_id <$> new)).
  - intros req courseIds courseId course st' _ _ _ _ (new & Hplanned & Hkeys & Hcompleted).
    exists (new ++ [plannedEntry (semesterKey semester) (category req) courseId course]).
    unfold place; simpl. split_and!.
    + by rewrite Hplanned, app_assoc.
    + apply Forall_app. split; [done|]. by constructor.
    + intros x [->%elem_of_singleton|Hx]%elem_of_union; rewrite fmap_app, elem_of_app.
      * right; right. simpl. apply list_elem_of_here.
      * destruct (Hcompleted x Hx); [by left|by right; left].
  - exists []. split_and!; [by rewrite app_nil_r|done|]. by left.
Qed.

Lemma planSemester_crediting st semester :
  ∃ new,
    plannedCourses (planSemester requirements courseInfo cap st semester)
    = plannedCourses st ++ new
    ∧ Forall (creditedToFirst requirements new) new.
Proof.
  destruct (planSemester_new st semester) as (new & Hplanned & Hkeys & Hcompleted).
  exists new. split; [done|].
  rewrite Forall_forall in Hkeys |- *.
  intros course Hcourse first Hfirst.
  destruct (term_crediting courseInfo cap (semesterKey semester) requirements first
              (sc_course_id course) (resetCredits st) Hfirst)
    as (new' & Hplanned' & Hnew').
  fold (planSemester requirements courseInfo cap st semester) in Hplanned', Hnew'.
  simpl in Hplanned'. rewrite Hplanned in Hplanned'.
  apply app_inv_head in Hplanned' as <-.
  destruct (Hnew' course Hcourse eq_refl) as [?|(prereq & Hprereq & Hmissing & Hplaced)];
    [by left|].
  right. simpl in Hmissing.
  destruct (Hcompleted prereq Hplaced) as [?|(other & -> & Hother)%list_elem_of_fmap];
    [done|].
  exists other. split_and!; [done..|].
  by rewrite (Hkeys other Hother), (Hkeys course Hcourse).
Qed.

Lemma planLoop_crediting availableSemesters : ∀ st,
  Forall (creditedToFirst requirements (plannedCourses st)) (plannedCourses st) →
  Forall (creditedToFirst requirements
            (plannedCourses (planLoop requirements courseInfo cap availableSemesters st)))
    (plannedCourses (planLoop requirements courseInfo cap availableSemesters st)).
Proof.
  induction availableSemesters as [|semester sems IH]; intros st Hst; simpl; [done|].
  apply IH.
  destruct (planSemester_crediting st semester) as (new & -> & Hnew).
  apply Forall_app. split.
  - eapply Forall_impl; [exact Hst|]. intros course.
    apply creditedToFirst_mono. intros x ?. apply elem_of_app. by left.
  - eapply Forall_impl; [exact Hnew|]. intros course.
    apply creditedToFirst_mono. intros x ?. apply elem_of_app. by right.
Qed.

(** Every planned course carries the label of a requirement that lists
    it, and no other label. *)
Lemma planned_courses_credited completedCourses availableSemesters course :
  course ∈ planCourseSequence requirements courseInfo completedCourses
             availableSemesters cap →
  ∃ req,
    req ∈ requirements ∧ lists (sc_course_id course) req = true
    ∧ sc_satisfies course = [category req].
Proof.
  unfold planCourseSequence. revert course. apply Forall_forall.
  apply (planLoop_ind requirements courseInfo cap
           (λ st, Forall (λ course, ∃ req,
                            req ∈ requirements ∧ lists (sc_course_id course) req = true
                            ∧ sc_satisfies course = [category req])
                    (plannedCourses st))).
  - intros key req courseIds courseId record st Hreq Hcourses Hin _ Hall.
    unfold place; simpl. apply Forall_app. split; [done|].
    constructor; [|done]. exists req. split_and!; [done| |done].
    unfold lists. simpl. rewrite Hcourses. by apply bool_decide_eq_true.
  - by intros st.
  - constructor.
Qed.

End crediting_loop.

(** C10.  The code on two categories that list CMSC132: "programming",
    the first one, meets it before its prerequisite CMSC131 and skips it;
    CMSC131 is then placed and counts as completed at once, so that
    "electives", the later category, places CMSC132 in the same term and
    is the one credited. *)
Theorem credited_to_later_category :
  ∃ plan,
    generateGraduationPlan Scenario.catalog Scenario.sharedCourse = Ok plan
    ∧ (λ sem, (sp_semester sem, sp_year sem,
               (λ course, (pc_course_id course, pc_prerequisites course,
                           pc_satisfies course)) <$> sp_courses sem))
        <$> gp_semesters plan
      = [ (Some "fall", 2024,
           [ ("CMSC131", [], ["programming"]);
             ("CMSC132", ["CMSC131"], ["electives"]) ]) ]
    ∧ category <$>
        find (lists "CMSC132")
          (remainingRequirementsOf
             [ Scenario.requirement "programming" ["CMSC132"; "CMSC131"];
               Scenario.requirement "electives" ["CMSC132"] ]
             (completedCourses Scenario.sharedCourse))
      = Some "programming".
Proof. eexists. split; [vm_compute; reflexivity|]. by split. Qed.

(** What the loops do ensure.  The [satisfies] list of a placed course is
    a singleton: the label of the requirement category whose iteration
    placed it, one of the categories still to be planned that list the
    course.  When no prerequisite of the course is placed in the same
    term, that category is the first one, in declared order, that lists
    the course. *)
Lemma course_credited_to_one_category fetch request plan sem course :
  generateGraduationPlan fetch request = Ok plan →
  sem ∈ gp_semesters plan →
  course ∈ sp_courses sem →
  ∃ majors_ placing first,
    majors request = Some majors_
    ∧ let remainingRequirements :=
        remainingRequirementsOf
          (allRequirementsOf majors_ (default [] (minors request)))
          (completedCourses request) in
      placing ∈ remainingRequirements
      ∧ lists (pc_course_id course) placing = true
      ∧ pc_satisfies course = [category placing]
      ∧ find (lists (pc_course_id course)) remainingRequirements = Some first
      ∧ ((∀ other, other ∈ sp_courses sem →
            pc_course_id other ∉ pc_prerequisites course) →
         pc_satisfies course = [category first]).
Proof.
  intros (startSemester & targetSemester & majors_ & _ & _ & Hmajors & ->)
    %generateGraduationPlan_Ok.
  simpl. intros [_ Hsem]%list_elem_of_filter.
  apply buildSemesters_elem in Hsem as (semester & _ & _ & _ & Hcourses & _).
  rewrite Hcourses.
  intros (planned & -> & [Hkey Hplanned]%list_elem_of_filter)%list_elem_of_fmap.
  unfold courseSequenceOf in *.
  set (remainingRequirements :=
         remainingRequirementsOf
           (allRequirementsOf majors_ (default [] (minors request)))
           (completedCourses request)) in *.
  destruct (planned_courses_credited _ _ _ _ _ _ Hplanned)
    as (placing & Hplacing & Hlists & Hsatisfies).
  destruct (find (lists (sc_course_id planned)) remainingRequirements)
    as [first|] eqn:Hfirst.
  2: { apply find_none with (x := placing) in Hfirst; [|by apply list_elem_of_In].
       by rewrite Hlists in Hfirst. }
  exists majors_, placing, first. split_and!; try done.
  intros Hnone. simpl.
  unfold planCourseSequence in Hplanned.
  match type of Hplanned with
  | _ ∈ plannedCourses (planLoop ?reqs ?info ?cap' ?sems ?st) =>
      pose proof (planLoop_crediting reqs info cap' sems st) as Hcredited
  end.
  specialize (Hcredited (Forall_nil_2 _)).
  rewrite Forall_forall in Hcredited.
  destruct (Hcredited planned Hplanned first Hfirst)
    as [?|(other & Hother & Hprereq & Hsame)]; [done|].
  exfalso. apply (Hnone (toPlannedCourse other)); [|done].
  apply list_elem_of_fmap. exists other. split; [done|].
  apply list_elem_of_filter. split; [|done]. by rewrite Hsame.
Qed.

Lemma course_credited_witness :
  ∃ plan sem course,
    generateGraduationPlan Scenario.catalog Cases.twoListings = Ok plan
    ∧ sem ∈ gp_semesters plan
    ∧ course ∈ sp_courses sem
    ∧ pc_course_id course = "MATH140"
    ∧ pc_satisfies course = ["core"].
Proof.
  eexists _, _, _. split; [vm_compute; reflexivity|].
  split; [apply list_elem_of_here|].
  split; [apply list_elem_of_here|]. split; [reflexivity|].
  edestruct (course_credited_to_one_category Scenario.catalog Cases.twoListings)
    as (majors_ & placing & first & Hmajors & _ & _ & _ & Hfind & Hfirst);
    [vm_compute; reflexivity
    |apply list_elem_of_here
    |apply list_elem_of_here|].
  injection Hmajors as <-. vm_compute in Hfind. injection Hfind as <-.
  apply Hfirst. simpl. intros other _. by intros ?%elem_of_nil.
Defined.

(** * Further properties of the engine *)

(** ** The sequencer on arbitrary input *)

(** X1.  Whatever the parsed terms are (unknown seasons, years that failed
    to parse, a target before the start), no two semesters of the sequence
    have the same key, so the grouping of the planned courses by key
    never merges two terms. *)
Theorem semester_keys_distinct (start end_ : ParsedSemester) :
  NoDup (semesterKey <$> generateSemesterSequence start end_).
Proof. apply semesterKeys_NoDup. Qed.

(** X2.  A target season that is not one of spring, summer and fall is not
    rejected: [indexOf] gives -1 and the sequence stops with the fall term
    of the year before the target year. *)
Theorem unknown_target_season_truncates (start : Term) (targetSeason : string)
    (targetYear : Z) :
  seasons_indexOf targetSeason = -1 →
  generateSemesterSequence (parsedTerm start)
    {| ps_season := targetSeason; ps_year := Some targetYear |}
  = semesterOf <$>
      termsBetween start {| term_season := Fall; term_year := targetYear - 1 |}.
Proof.
  intros Hunknown. unfold generateSemesterSequence, parsedTerm, termsBetween; simpl.
  rewrite Hunknown, seasons_indexOf_name.
  apply sequenceFrom_walk; [lia|].
  unfold termOrdinal; simpl. f_equal; lia.
Qed.

Lemma unknown_target_season_witness :
  generateSemesterSequence
    {| ps_season := "fall"; ps_year := Some 2024 |}
    {| ps_season := "autumn"; ps_year := Some 2026 |}
  = [ {| season := Some "fall"; year := 2024 |};
      {| season := Some "spring"; year := 2025 |};
      {| season := Some "summer"; year := 2025 |};
      {| season := Some "fall"; year := 2025 |} ].
Proof.
  refine (eq_trans (unknown_target_season_truncates
            {| term_season := Fall; term_year := 2024 |} "autumn" 2026 _) _);
    reflexivity.
Defined.

(** X3.  A starting season that is not one of spring, summer and fall is
    not rejected either: the first semester pushed has no season
    ([seasons[-1]]), and the sequence goes on with the spring term of the
    starting year, so the whole starting year is planned. *)
Theorem unknown_start_season_restarts (startSeason : string) (startYear : Z)
    (target : Term) :
  seasons_indexOf startSeason = -1 →
  startYear <= term_year target →
  generateSemesterSequence
    {| ps_season := startSeason; ps_year := Some startYear |} (parsedTerm target)
  = {| season := None; year := startYear |}
      :: (semesterOf <$>
            termsBetween {| term_season := Spring; term_year := startYear |} target).
Proof.
  intros Hunknown Hyear. unfold generateSemesterSequence, parsedTerm, termsBetween; simpl.
  rewrite Hunknown, seasons_indexOf_name, sequenceFrom_step.
  assert (Hin : inRange startYear (-1) (term_year target)
                  (seasonOrdinal (term_season target)) = true).
  { unfold inRange. destruct target as [[] ?]; simpl in *; lia. }
  rewrite Hin. simpl. f_equal.
  apply (sequenceFrom_walk _ {| term_season := Spring; term_year := startYear |});
    [destruct target as [[] ?]; simpl; lia|].
  unfold termOrdinal; simpl. f_equal; lia.
Qed.

Lemma unknown_start_season_witness :
  generateSemesterSequence
    {| ps_season := "autumn"; ps_year := Some 2024 |}
    {| ps_season := "summer"; ps_year := Some 2024 |}
  = [ {| season := None; year := 2024 |};
      {| season := Some "spring"; year := 2024 |};
      {| season := Some "summer"; year := 2024 |} ].
Proof.
  refine (eq_trans (unknown_start_season_restarts "autumn" 2024
            {| term_season := Summer; term_year := 2024 |} _ _) _).
  - reflexivity.
  - vm_compute. discriminate.
  - reflexivity.
Defined.

(** ** Parsing a term that was written in the expected format *)

Lemma digitOf_pretty_char (k : N) :
  (k < 10)%N → JS.digitOf (pretty_N_char k) = Some (Z.of_N k).
Proof.
  intros Hk.
  assert (k = 0 ∨ k = 1 ∨ k = 2 ∨ k = 3 ∨ k = 4 ∨ k = 5 ∨ k = 6 ∨ k = 7 ∨ k = 8 ∨ k = 9)%N
    as Hcases by lia.
  repeat (destruct Hcases as [-> | Hcases]; [reflexivity|]). by subst.
Qed.

(** The decimal digits written by [pretty] are read back by [digitsVal];
    the text starts with a digit from 1 to 9 and contains no space. *)
Lemma digits_of_pretty (x : N) : ∀ s,
  (0 < x)%N →
  JS.digitsVal 10 (pretty_N_go x s) None = JS.digitsVal 10 s (Some (Z.of_N x))
  ∧ (∃ k r, (1 <= k <= 9)%N ∧ pretty_N_go x s = String (pretty_N_char k) r)
  ∧ (spaceFree s = true → spaceFree (pretty_N_go x s) = true).
Proof.
  induction (N.lt_wf_0 x) as [x _ IH]; intros s Hpos.
  rewrite pretty_N_go_step by done.
  pose proof (N.div_mod x 10 ltac:(done)) as Hsplit.
  pose proof (N.mod_lt x 10 ltac:(done)) as Hdigit.
  remember (x `div` 10)%N as q eqn:Hq. remember (x `mod` 10)%N as d eqn:Hd.
  clear Hq Hd.
  assert (Hfree : spaceFree (String (pretty_N_char d) s) = spaceFree s).
  { unfold pretty_N_char. by repeat case_match. }
  destruct (decide (q = 0)%N) as [->|Hlarge].
  - rewrite pretty_N_go_0. assert (d = x) as -> by lia.
    split_and!.
    + simpl. rewrite digitOf_pretty_char by done. simpl.
      by rewrite (proj2 (Z.ltb_lt _ _)) by lia.
    + exists x, s. split; [lia|done].
    + by rewrite Hfree.
  - destruct (IH q ltac:(lia) (String (pretty_N_char d) s) ltac:(lia))
      as (Hval & Hhead & Hspace).
    split_and!.
    + rewrite Hval. simpl. rewrite digitOf_pretty_char by done. simpl.
      rewrite (proj2 (Z.ltb_lt _ _)) by lia.
      do 2 f_equal. lia.
    + done.
    + intros Hs. apply Hspace. by rewrite Hfree.
Qed.

(** [parseInt] reads back the decimal text of every integer. *)
Lemma parseInt_pretty (z : Z) :
  JS.parseInt (Some (pretty z)) = Some z ∧ spaceFree (pretty z) = true.
Proof.
  assert (Hpositive : ∀ p : positive,
            JS.parseInt (Some (pretty (N.pos p))) = Some (Z.pos p)
            ∧ JS.unsigned (pretty (N.pos p)) = Some (Z.pos p)
            ∧ spaceFree (pretty (N.pos p)) = true).
  { intros p. unfold pretty, pretty_N. rewrite decide_False by done.
    destruct (digits_of_pretty (N.pos p) EmptyString) as (Hval & (k & r & Hk & Hhead) & Hfree);
      [done|].
    assert (Hunsigned : JS.unsigned (pretty_N_go (N.pos p) EmptyString) = Some (Z.pos p)).
    { rewrite <- Hval at 1. rewrite Hhead.
      assert (k = 1 ∨ k = 2 ∨ k = 3 ∨ k = 4 ∨ k = 5 ∨ k = 6 ∨ k = 7 ∨ k = 8 ∨ k = 9)%N
        as Hcases by lia.
      repeat (destruct Hcases as [-> | Hcases]; [reflexivity|]). by subst. }
    split_and!; [|done|by apply Hfree].
    unfold JS.parseInt. simpl default. rewrite <- Hunsigned. rewrite Hhead.
    assert (k = 1 ∨ k = 2 ∨ k = 3 ∨ k = 4 ∨ k = 5 ∨ k = 6 ∨ k = 7 ∨ k = 8 ∨ k = 9)%N
      as Hcases by lia.
    repeat (destruct Hcases as [-> | Hcases]; [reflexivity|]). by subst. }
  destruct z as [|p|p].
  - by vm_compute.
  - destruct (Hpositive p) as (? & _ & ?). done.
  - destruct (Hpositive p) as (_ & Hunsigned & Hfree).
    change (pretty (Z.neg p)) with (String "-" (pretty (N.pos p))).
    split; [|done].
    unfold JS.parseInt. simpl. by rewrite Hunsigned.
Qed.

Lemma split_space_free (s : string) : spaceFree s = true → JS.split_space s = [s].
Proof.
  induction s as [|c r IH]; [done|]. simpl.
  destruct (Ascii.eqb c " "); [done|]. simpl. intros Hr. by rewrite IH.
Qed.

Lemma split_space_two (s u : string) :
  spaceFree s = true → spaceFree u = true →
  JS.split_space (s +:+ String " " u) = [s; u].
Proof.
  intros Hs Hu. induction s as [|c r IH]; simpl.
  - by rewrite split_space_free.
  - simpl in Hs. destruct (Ascii.eqb c " "); [done|]. by rewrite IH.
Qed.

(** X4.  A term written as a season in ASCII characters without a space,
    one space and a decimal year that a JavaScript number holds exactly
    (below 2^53 in absolute value) is parsed into the season in lower case
    and that year, whatever the capitalisation of the season and the sign
    of the year; in particular the key under which a semester is planned
    parses back to it. *)
Theorem parseSemester_reads_format (seasonText : string) (y : Z) :
  spaceFree seasonText = true →
  asciiText seasonText = true →
  Z.abs y < 2 ^ 53 →
  parseSemester (Some (seasonText +:+ " " +:+ pretty y))
  = Ok {| ps_season := JS.toLowerCase seasonText; ps_year := Some y |}.
Proof.
  intros Hfree _ _. destruct (parseInt_pretty y) as [Hparse Hyear].
  unfold parseSemester.
  change (" " +:+ pretty y) with (String " " (pretty y)).
  rewrite split_space_two by done. simpl. by rewrite Hparse.
Qed.

Lemma parseSemester_reads_format_witness :
  parseSemester (Some "FaLL 2024") = Ok (parsedTerm {| term_season := Fall; term_year := 2024 |})
  ∧ parseSemester (Some (semesterKey {| season := Some "spring"; year := -44 |}))
    = Ok {| ps_season := "spring"; ps_year := Some (-44) |}.
Proof.
  split.
  - exact (parseSemester_reads_format "FaLL" 2024 eq_refl eq_refl eq_refl).
  - exact (parseSemester_reads_format "spring" (-44) eq_refl eq_refl eq_refl).
Defined.

(** ** The catalog records *)

Lemma stored_record_cases fetch courseId record :
  storedRecord fetch courseId = Some record ↔
  (fetch courseId = FetchThrows ∧ record = fallbackCourse courseId)
  ∨ ∃ course, fetch courseId = FetchCourse course ∧ record = catalogRecord courseId course.
Proof.
  unfold storedRecord. split.
  - destruct (fetch courseId) as [| | |course]; intros [= <-];
      [by left|right; by exists course].
  - by intros [[-> ->]|(course & -> & ->)].
Qed.

Lemma orNum_nonzero x d : d ≠ 0 → JS.orNum x d ≠ 0.
Proof.
  intros Hd. unfold JS.orNum. destruct x as [n|]; [|done].
  by destruct (Z.eqb_spec n 0).
Qed.

(** X5.  [courseInfo] holds a record for an identifier exactly when the
    identifier was among those looked up and its lookup either threw (the
    fallback record) or returned a course (the record built from it); the
    order of the lookups and repeated identifiers make no difference.  A
    record is stored under its own identifier and never has zero
    credits. *)
Theorem catalog_records fetch (courseIds : list string) (courseId : string)
    (record : CourseInfo) :
  (fetchCourseInformation fetch courseIds !! courseId = Some record ↔
   courseId ∈ courseIds
   ∧ ((fetch courseId = FetchThrows ∧ record = fallbackCourse courseId)
      ∨ ∃ course,
          fetch courseId = FetchCourse course ∧ record = catalogRecord courseId course))
  ∧ (fetchCourseInformation fetch courseIds !! courseId = Some record →
     ci_course_id record = courseId ∧ ci_credits record ≠ 0).
Proof.
  rewrite fetchCourseInformation_lookup, <- stored_record_cases.
  split.
  - destruct (decide (courseId ∈ courseIds)); [tauto|]. split; [done|tauto].
  - destruct (decide (courseId ∈ courseIds)); [|done].
    intros [[_ ->]|(course & _ & ->)]%stored_record_cases; simpl; [done|].
    split; [done|]. by apply orNum_nonzero.
Qed.

(** ** What the plan holds *)

Lemma courseSequence_fresh fetch allRequirements completedCourses availableSemesters
    cap course :
  course ∈ courseSequenceOf fetch allRequirements completedCourses availableSemesters cap →
  sc_course_id course ∉ cc_course_id <$> completedCourses.
Proof.
  unfold courseSequenceOf, planCourseSequence. intros Hcourse Hcompleted.
  match type of Hcourse with
  | _ ∈ plannedCourses (planLoop ?reqs ?info ?cap' ?sems ?st) =>
      destruct (planLoop_placedOnce reqs info cap'
                  (list_to_set (cc_course_id <$> completedCourses)) sems st)
        as (_ & _ & Hfresh)
  end.
  { split_and!; simpl; [by rewrite (right_id_L ∅ (∪))|constructor|].
    by intros ? ?%elem_of_nil. }
  apply (Hfresh (sc_course_id course)).
  - apply list_elem_of_fmap. by exists course.
  - by apply elem_of_list_to_set.
Qed.

(** X6.  The courses of the returned plan carry the data of their catalog
    record: every placed course has a record (the fallback record when its
    lookup threw, the record built from the answer otherwise), and its
    name, credits and prerequisites are those of the record; in particular
    no placed course has zero credits. *)
Theorem placed_course_has_catalog_data fetch request plan course :
  generateGraduationPlan fetch request = Ok plan →
  course ∈ gp_semesters plan ≫= sp_courses →
  ∃ record,
    ((fetch (pc_course_id course) = FetchThrows
      ∧ record = fallbackCourse (pc_course_id course))
     ∨ ∃ answer,
         fetch (pc_course_id course) = FetchCourse answer
         ∧ record = catalogRecord (pc_course_id course) answer)
    ∧ pc_name course = ci_name record
    ∧ pc_credits course = ci_credits record
    ∧ pc_prerequisites course = ci_prerequisites record
    ∧ pc_credits course ≠ 0.
Proof.
  intros (startSemester & targetSemester & majors_ & _ & ->)%plan_courses.
  intros (planned & -> & Hplanned)%list_elem_of_fmap.
  unfold courseSequenceOf, planCourseSequence in Hplanned.
  revert planned Hplanned. apply Forall_forall.
  apply planLoop_ind.
  - intros key req courseIds courseId record st _ _ _ (_ & _ & Hrecord & _) Hall.
    unfold place; simpl. apply Forall_app. split; [done|].
    constructor; [|done]. simpl.
    rewrite fetchCourseInformation_lookup in Hrecord.
    destruct (decide _); [|done].
    exists record. split_and!; try done.
    + by apply stored_record_cases.
    + apply stored_record_cases in Hrecord as [[_ ->]|(answer & _ & ->)]; [done|].
      by apply orNum_nonzero.
  - by intros st.
  - constructor.
Qed.

Lemma placed_course_witness :
  ∃ plan course,
    generateGraduationPlan Scenario.flakyCatalog Scenario.unknownCourses = Ok plan
    ∧ course ∈ gp_semesters plan ≫= sp_courses
    ∧ pc_course_id course = "HIST999"
    ∧ pc_credits course ≠ 0.
Proof.
  eexists _, _. split; [vm_compute; reflexivity|].
  split; [apply list_elem_of_here|]. split; [reflexivity|].
  edestruct (placed_course_has_catalog_data Scenario.flakyCatalog Scenario.unknownCourses)
    as (record & _ & _ & _ & _ & Hcredits);
    [vm_compute; reflexivity|apply list_elem_of_here|exact Hcredits].
Defined.

(** X7.  In the order in which the plan lists them (semester after
    semester, and within a semester in placement order), every
    prerequisite of a placed course is either a completed course of the
    request or a course listed before it. *)
Theorem prerequisites_listed_before fetch request plan before course after prereq :
  generateGraduationPlan fetch request = Ok plan →
  gp_semesters plan ≫= sp_courses = before ++ course :: after →
  prereq ∈ pc_prerequisites course →
  prereq ∈ cc_course_id <$> completedCourses request
  ∨ prereq ∈ pc_course_id <$> before.
Proof.
  intros (startSemester & targetSemester & majors_ & _ & ->)%plan_courses Hsplit Hprereq.
  apply fmap_app_inv in Hsplit as (before' & rest' & -> & Hrest & Hsequence).
  symmetry in Hrest. apply fmap_cons_inv in Hrest as (course' & after' & -> & -> & ->).
  unfold courseSequenceOf in Hsequence.
  destruct (prerequisites_planned_before _ _ _ _ _ _ _ _ prereq Hsequence Hprereq)
    as [?|Hbefore]; [by left|right].
  by rewrite <- list_fmap_compose.
Qed.

Lemma prerequisites_listed_before_witness :
  ∃ plan before course after,
    generateGraduationPlan Scenario.catalog Scenario.fiveCourses = Ok plan
    ∧ gp_semesters plan ≫= sp_courses = before ++ course :: after
    ∧ pc_course_id course = "STAT400"
    ∧ "MATH141" ∈ pc_course_id <$> before.
Proof.
  eexists _, [_; _; _; _], _, []. split; [vm_compute; reflexivity|].
  split; [reflexivity|]. split; [reflexivity|].
  edestruct (prerequisites_listed_before Scenario.catalog Scenario.fiveCourses)
    as [Hcompleted|Hbefore];
    [vm_compute; reflexivity|reflexivity|apply list_elem_of_here| |exact Hbefore].
  exfalso. vm_compute in Hcompleted.
  by apply list_elem_of_singleton in Hcompleted.
Defined.

(** X8.  A course for which the catalog answers without a record (a status
    that is not OK, or a result that is not a non-empty array) never
    appears in the plan, however often and wherever it is required. *)
Theorem course_without_record_never_placed fetch request plan courseId :
  fetch courseId = FetchNotOk ∨ fetch courseId = FetchNoCourse →
  generateGraduationPlan fetch request = Ok plan →
  courseId ∉ pc_course_id <$> (gp_semesters plan ≫= sp_courses).
Proof. intros Hnone Hplan. by eapply unknown_course_never_planned. Qed.

Lemma course_without_record_witness :
  ∃ plan,
    generateGraduationPlan Scenario.flakyCatalog Scenario.unknownCourses = Ok plan
    ∧ "ARTT100" ∉ pc_course_id <$> (gp_semesters plan ≫= sp_courses).
Proof.
  eexists. split; [vm_compute; reflexivity|].
  apply (course_without_record_never_placed Scenario.flakyCatalog Scenario.unknownCourses);
    [by left|vm_compute; reflexivity].
Defined.

Lemma courseSequence_has_record fetch allRequirements completedCourses
    availableSemesters cap course :
  course ∈ courseSequenceOf fetch allRequirements completedCourses availableSemesters cap →
  is_Some (storedRecord fetch (sc_course_id course)).
Proof.
  unfold courseSequenceOf.
  intros [record Hrecord]%planned_courses_have_record.
  rewrite fetchCourseInformation_lookup in Hrecord.
  destruct (decide _); [by exists record|done].
Qed.

(** X9.  A category that has a course list is reported in
    [unmetRequirements] whenever each of its courses is either completed
    or without a catalog record: so are, in particular, a category with an
    empty list and a category that the completed courses satisfy. *)
Theorem unplannable_category_is_unmet fetch request plan majors_ req courseIds :
  generateGraduationPlan fetch request = Ok plan →
  majors request = Some majors_ →
  req ∈ allRequirementsOf majors_ (default [] (minors request)) →
  courses req = Some courseIds →
  (∀ courseId, courseId ∈ courseIds →
     courseId ∈ cc_course_id <$> completedCourses request
     ∨ fetch courseId = FetchNotOk ∨ fetch courseId = FetchNoCourse) →
  category req ∈ gp_unmetRequirements plan.
Proof.
  intros Hplan Hmajors Hreq Hcourses Hunplannable.
  apply generateGraduationPlan_Ok in Hplan
    as (startSemester & targetSemester & majors' & _ & _ & Hmajors' & ->).
  rewrite Hmajors in Hmajors'. injection Hmajors' as <-.
  simpl. apply findUnmetRequirements_spec.
  exists req, courseIds. split_and!; try done.
  intros courseId Hin (planned & Hid & Hplanned)%list_elem_of_fmap.
  destruct (Hunplannable courseId Hin) as [Hcompleted|Hnone].
  - apply courseSequence_fresh in Hplanned. by rewrite <- Hid in Hplanned.
  - apply courseSequence_has_record in Hplanned as [record Hrecord].
    rewrite <- Hid in Hrecord. unfold storedRecord in Hrecord.
    by destruct Hnone as [Hnone|Hnone]; rewrite Hnone in Hrecord.
Qed.

Lemma unplannable_category_witness :
  ∃ plan,
    generateGraduationPlan Scenario.catalog Scenario.writingDone = Ok plan
    ∧ "core" ∈ gp_unmetRequirements plan.
Proof.
  eexists. split; [vm_compute; reflexivity|].
  apply (unplannable_category_is_unmet Scenario.catalog Scenario.writingDone _
           [Scenario.major [Scenario.requirement "core" ["ENGL101"]]]
           (Scenario.requirement "core" ["ENGL101"]) ["ENGL101"]);
    [vm_compute; reflexivity|reflexivity|apply list_elem_of_here|reflexivity|].
  intros courseId ->%list_elem_of_singleton. left. apply list_elem_of_here.
Defined.

(** ** The greedy pass leaves no room unused *)

Section saturation.

Context (requirements : list Requirement).
Context (courseInfo : gmap string CourseInfo).
Context (cap : Z).

(** Once the credits of the term have reached the cap, the loops change
    nothing any more. *)
Lemma planCourses_full key label courseIds st :
  cap <= currentCredits st → planCourses courseInfo cap key label courseIds st = st.
Proof.
  intros Hfull. induction courseIds as [|courseId rest IH]; simpl; [done|].
  case_bool_decide; [done|]. by rewrite (proj2 (Z.leb_le _ _) Hfull).
Qed.

Lemma planRequirements_full key reqs st :
  cap <= currentCredits st →
  fold_left (planRequirement courseInfo cap key) reqs st = st.
Proof.
  intros Hfull. induction reqs as [|req reqs IH]; simpl; [done|].
  unfold planRequirement at 2. destruct (courses req); [|done].
  by rewrite planCourses_full.
Qed.

Lemma planLoop_completed availableSemesters st courseId :
  courseId ∈ completed st →
  courseId ∈ completed (planLoop requirements courseInfo cap availableSemesters st).
Proof.
  intros Hin.
  apply (planLoop_ind requirements courseInfo cap (λ st', courseId ∈ completed st'));
    [|done..].
  intros key req courseIds courseId' course st' _ _ _ _ Hst'.
  unfold place; simpl. by apply elem_of_union_r.
Qed.

(** The credits counted for a term are those of the courses planned for
    it. *)
Lemma planSemester_total st semester :
  ∃ new,
    plannedCourses (planSemester requirements courseInfo cap st semester)
    = plannedCourses st ++ new
    ∧ Forall (λ course, sc_plannedSemester course = semesterKey semester) new
    ∧ currentCredits (planSemester requirements courseInfo cap st semester)
      = total sc_credits new.
Proof.
  apply (planSemester_ind requirements courseInfo cap
           (λ st', ∃ new,
              plannedCourses st' = plannedCourses st ++ new
              ∧ Forall (λ course, sc_plannedSemester course = semesterKey semester) new
              ∧ currentCredits st' = total sc_credits new)).
  - intros req courseIds courseId course st' _ _ _ _ (new & Hplanned & Hkeys & Hcredits).
    exists (new ++ [plannedEntry (semesterKey semester) (category req) courseId course]).
    unfold place; simpl. split_and!.
    + by rewrite Hplanned, app_assoc.
    + apply Forall_app. split; [done|]. by constructor.
    + rewrite total_app, total_cons, total_nil, Hcredits. simpl. lia.
  - exists []. by rewrite app_nil_r.
Qed.

(** A course that is listed, has a record and has all its prerequisites
    completed is placed in the term unless the term is full. *)
Lemma term_saturated key req courseIds courseId record st :
  req ∈ requirements → courses req = Some courseIds → courseId ∈ courseIds →
  courseInfo !! courseId = Some record →
  (∀ prereq, prereq ∈ ci_prerequisites record → prereq ∈ completed st) →
  courseId ∈ completed (fold_left (planRequirement courseInfo cap key) requirements st)
  ∨ cap <= currentCredits
             (fold_left (planRequirement courseInfo cap key) requirements st).
Proof.
  intros (before & after & ->)%list_elem_of_split Hcourses Hin Hrecord Hready.
  rewrite fold_left_app. simpl.
  set (s1 := fold_left (planRequirement courseInfo cap key) before st).
  assert (Hsub : ∀ x, x ∈ completed st → x ∈ completed s1).
  { intros x. apply planRequirements_completed. }
  unfold planRequirement at 2 4. rewrite Hcourses.
  destruct (planCourses_blocked courseInfo cap key (category req) courseId courseIds Hin s1)
    as [Hdone|[Hfull|[Hnone|(record' & prereq & Hrecord' & Hprereq & Hmissing)]]].
  - left. by apply planRequirements_completed.
  - right. by rewrite planRequirements_full.
  - by rewrite Hnone in Hrecord.
  - rewrite Hrecord' in Hrecord. injection Hrecord as ->.
    exfalso. by apply Hmissing, Hsub, Hready.
Qed.

Lemma planLoop_saturated req courseIds courseId record availableSemesters :
  req ∈ requirements → courses req = Some courseIds → courseId ∈ courseIds →
  courseInfo !! courseId = Some record →
  ∀ st,
    (∀ prereq, prereq ∈ ci_prerequisites record → prereq ∈ completed st) →
    courseId ∉ completed (planLoop requirements courseInfo cap availableSemesters st) →
    ∃ blocks,
      plannedCourses (planLoop requirements courseInfo cap availableSemesters st)
      = plannedCourses st ++ concat blocks
      ∧ Forall2 (λ semester new,
                   Forall (λ course, sc_plannedSemester course = semesterKey semester) new
                   ∧ cap <= total sc_credits new)
          availableSemesters blocks.
Proof.
  intros Hreq Hcourses Hin Hrecord.
  induction availableSemesters as [|semester sems IH]; intros st Hready Hnever; simpl.
  - exists []. simpl. by rewrite app_nil_r.
  - simpl in Hnever.
    set (st1 := planSemester requirements courseInfo cap st semester) in *.
    assert (Hready1 : ∀ prereq, prereq ∈ ci_prerequisites record → prereq ∈ completed st1).
    { intros prereq Hprereq. by apply planRequirements_completed, Hready. }
    destruct (IH st1 Hready1 Hnever) as (blocks & Hplanned & Hblocks).
    destruct (planSemester_total st semester) as (new & Hnew & Hkeys & Hcredits).
    fold st1 in Hnew, Hcredits.
    exists (new :: blocks). split.
    + rewrite Hplanned, Hnew. simpl. by rewrite app_assoc.
    + constructor; [|done]. split; [done|]. rewrite <- Hcredits.
      destruct (term_saturated (semesterKey semester) req courseIds courseId record
                  (resetCredits st) Hreq Hcourses Hin Hrecord Hready) as [Hdone|Hfull];
        [|done].
      exfalso. apply Hnever. by apply planLoop_completed.
Qed.

End saturation.

(** The credits planned for any term of the sequence reach the cap when a
    course that was ready from the start is left out of the plan. *)
Lemma courseSequence_saturated fetch allRequirements completedCourses start end_ cap
    req courseIds courseId record semester :
  let remaining := remainingRequirementsOf allRequirements completedCourses in
  let courseSequence :=
    courseSequenceOf fetch allRequirements completedCourses
      (generateSemesterSequence start end_) cap in
  req ∈ remaining → courses req = Some courseIds → courseId ∈ courseIds →
  storedRecord fetch courseId = Some record →
  (∀ prereq, prereq ∈ ci_prerequisites record →
     prereq ∈ cc_course_id <$> completedCourses) →
  courseId ∉ cc_course_id <$> completedCourses →
  courseId ∉ sc_course_id <$> courseSequence →
  semester ∈ generateSemesterSequence start end_ →
  cap <= total sc_credits
           (filter (λ course, sc_plannedSemester course = semesterKey semester)
              courseSequence).
Proof.
  intros remaining courseSequence Hreq Hcourses Hin Hstored Hready Hfresh Hnever Hsem.
  unfold courseSequence, courseSequenceOf, planCourseSequence in *.
  fold remaining in Hnever |- *.
  set (courseInfo := fetchCourseInformation fetch (allRequiredCourses remaining)) in *.
  set (st := {| plannedCourses := [];
                completed := list_to_set (cc_course_id <$> completedCourses);
                currentCredits := 0 |}) in *.
  assert (Hrecord : courseInfo !! courseId = Some record).
  { unfold courseInfo. rewrite fetchCourseInformation_lookup, decide_True; [done|].
    apply allRequiredCourses_elem. by exists req, courseIds. }
  destruct (planLoop_placedOnce remaining courseInfo cap
              (list_to_set (cc_course_id <$> completedCourses))
              (generateSemesterSequence start end_) st) as (Hcompleted & _ & _).
  { split_and!; simpl; [by rewrite (right_id_L ∅ (∪))|constructor|].
    by intros ? ?%elem_of_nil. }
  destruct (planLoop_saturated remaining courseInfo cap req courseIds courseId record
              (generateSemesterSequence start end_) Hreq Hcourses Hin Hrecord st)
    as (blocks & Hplanned & Hblocks).
  { intros prereq Hprereq. simpl. by apply elem_of_list_to_set, Hready. }
  { rewrite Hcompleted.
    intros [Hinitial%elem_of_list_to_set|Hplanned%elem_of_list_to_set]%elem_of_union;
      [by apply Hfresh|by apply Hnever]. }
  simpl in Hplanned. rewrite Hplanned.
  assert (Hkeys : Forall2 (λ key new,
             filter (λ course, sc_plannedSemester course = key) (concat blocks) = new
             ∧ cap <= total sc_credits new)
            (semesterKey <$> generateSemesterSequence start end_) blocks).
  { apply (filter_blocks (λ _ new, cap <= total sc_credits new));
      [apply semesterKeys_NoDup|]. by apply Forall2_fmap_l. }
  apply Forall2_fmap_l in Hkeys.
  apply list_elem_of_lookup in Hsem as [i Hi].
  destruct (Forall2_lookup_l _ _ _ _ _ Hkeys Hi) as (new & _ & Hnew & Hfull).
  simpl in Hnew. by rewrite Hnew.
Qed.

(** ** Catalog lookups that throw *)




(** X10.  The planner is greedy: when a course of a remaining category has
    a catalog record whose prerequisites were all completed before
    planning, is not completed itself and is still left out of the plan,
    then every term of the plan carries at least the cap in credits, and,
    for a positive cap, every term from the start to the target is in the
    plan. *)
Theorem ready_course_left_out_only_when_full fetch request plan start target majors_
    req courseIds courseId record :
  generateGraduationPlan fetch request = Ok plan →
  parseSemester (startingSemester request) = Ok start →
  parseSemester (graduationTarget request) = Ok target →
  majors request = Some majors_ →
  req ∈ remainingRequirementsOf (allRequirementsOf majors_ (default [] (minors request)))
          (completedCourses request) →
  courses req = Some courseIds →
  courseId ∈ courseIds →
  storedRecord fetch courseId = Some record →
  (∀ prereq, prereq ∈ ci_prerequisites record →
     prereq ∈ cc_course_id <$> completedCourses request) →
  courseId ∉ cc_course_id <$> completedCourses request →
  courseId ∉ pc_course_id <$> (gp_semesters plan ≫= sp_courses) →
  Forall (λ sem, maxCreditsPerSemester request <= sp_totalCredits sem) (gp_semesters plan)
  ∧ (0 < maxCreditsPerSemester request →
     (λ sem, (sp_semester sem, sp_year sem)) <$> gp_semesters plan
     = (λ semester, (season semester, year semester))
         <$> generateSemesterSequence start target).
Proof.
  intros Hplan Hstart Htarget Hmajors Hreq Hcourses Hin Hstored Hready Hfresh Hnever.
  destruct (plan_courses _ _ _ Hplan) as (start' & target' & majors' & Hmajors' & Hcs).
  destruct (generateGraduationPlan_Ok _ _ _ Hplan)
    as (start'' & target'' & majors'' & Hstart'' & Htarget'' & Hmajors'' & Hshape).
  rewrite Hstart in Hstart''. rewrite Htarget in Htarget''. rewrite Hmajors in Hmajors''.
  injection Hstart'' as <-. injection Htarget'' as <-. injection Hmajors'' as <-.
  simpl in Hshape.
  set (allRequirements := allRequirementsOf majors_ (default [] (minors request))) in *.
  set (sems := generateSemesterSequence start target) in *.
  set (seq := courseSequenceOf fetch allRequirements (completedCourses request) sems
                (maxCreditsPerSemester request)) in *.
  assert (Hnever' : courseId ∉ sc_course_id <$> seq).
  { intros Hplanned. apply Hnever. rewrite Hshape. simpl.
    rewrite bind_nonempty_courses. unfold seq, sems.
    rewrite buildSemesters_courses. fold sems. fold seq.
    rewrite <- list_fmap_compose. exact Hplanned. }
  assert (Hfull : ∀ semester, semester ∈ sems →
            maxCreditsPerSemester request
            <= total sc_credits
                 (filter (λ course, sc_plannedSemester course = semesterKey semester) seq)).
  { intros semester Hsem.
    by apply (courseSequence_saturated fetch allRequirements (completedCourses request)
                start target (maxCreditsPerSemester request) req courseIds courseId record). }
  assert (Hbuilt : ∀ sem, sem ∈ buildSemesters sems seq →
            maxCreditsPerSemester request <= sp_totalCredits sem).
  { intros sem (semester & Hsem & _ & _ & Hcourses' & ->)%buildSemesters_elem.
    rewrite sumCredits_total, Hcourses', total_fmap. by apply Hfull. }
  rewrite Hshape. simpl. split.
  - apply Forall_forall. intros sem [_ Hsem]%list_elem_of_filter. by apply Hbuilt.
  - intros Hpositive. rewrite filter_all.
    + unfold buildSemesters. rewrite <- !list_fmap_compose. by apply list_fmap_ext.
    + apply Forall_forall. intros sem Hsem.
      pose proof (Hbuilt sem Hsem) as Hsum.
      apply buildSemesters_elem in Hsem as (_ & _ & _ & _ & _ & Htotal).
      rewrite Htotal in Hsum. destruct (sp_courses sem); [|simpl; lia].
      unfold sumCredits in Hsum. simpl in Hsum. lia.
Qed.

Lemma ready_course_left_out_witness :
  let plan := {| gp_majors := default [] (majors Cases.oneFullTerm);
                 gp_minors := [];
                 gp_semesters :=
                   [ {| sp_semester := Some "fall"; sp_year := 2024;
                        sp_courses :=
                          [ {| pc_course_id := "MATH140"; pc_name := "Calculus I";
                               pc_credits := 4; pc_prerequisites := [];
                               pc_satisfies := ["core"] |} ];
                        sp_totalCredits := 4 |} ];
                 gp_totalCredits := 4;
                 gp_completionDate := "Fall 2024";
                 gp_warnings := ["fall 2024: Under full-time status with 4 credits"];
                 gp_unmetRequirements := [] |} in
  generateGraduationPlan Scenario.catalog Cases.oneFullTerm = Ok plan
  ∧ Forall (λ sem, 4 <= sp_totalCredits sem) (gp_semesters plan).
Proof.
  split; [by vm_compute|].
  refine (proj1 (ready_course_left_out_only_when_full Scenario.catalog Cases.oneFullTerm _
            {| ps_season := "fall"; ps_year := Some 2024 |}
            {| ps_season := "fall"; ps_year := Some 2024 |}
            [Scenario.major [Scenario.requirement "core" ["MATH140"; "CMSC131"]]]
            (Scenario.requirement "core" ["MATH140"; "CMSC131"])
            ["MATH140"; "CMSC131"] "CMSC131"
            {| ci_course_id := "CMSC131"; ci_name := "Object-Oriented Programming I";
               ci_credits := 4; ci_prerequisites := [];
               ci_description := EmptyString |}
            _ _ _ _ _ _ _ _ _ _ _)).
  all: try by vm_compute.
  - vm_compute. apply list_elem_of_here.
  - apply list_elem_of_further, list_elem_of_here.
  - vm_compute. by intros ?%elem_of_nil.
  - vm_compute. by intros [=]%list_elem_of_singleton.
Defined.

(** ** The prerequisite text *)

Lemma upper_not_space c : JS.isUpper c = true → JS.isSpace c = false.
Proof.
  unfold JS.isUpper, JS.isSpace.
  intros [?%Z.leb_le ?%Z.leb_le]%andb_true_iff.
  apply orb_false_iff. split; [apply andb_false_iff|apply Z.eqb_neq]; lia.
Qed.

Lemma digit_not_space c : JS.isDigit c = true → JS.isSpace c = false.
Proof.
  unfold JS.isDigit, JS.isSpace.
  intros [?%Z.leb_le ?%Z.leb_le]%andb_true_iff.
  apply orb_false_iff. split; [apply andb_false_iff|apply Z.eqb_neq]; lia.
Qed.

Lemma takeN_prefix p n : ∀ s m r,
  takeN p n s = Some (m, r) →
  s = m +:+ r ∧ ∀ x, takeN p n (m +:+ x) = Some (m, x).
Proof.
  induction n as [|n IH]; intros s m r; simpl.
  - by intros [= <- <-].
  - destruct s as [|c s]; [done|]. destruct (p c) eqn:Hc; [|done].
    destruct (takeN p n s) as [[m' r']|] eqn:Htake; [|done].
    intros [= <- <-]. destruct (IH _ _ _ Htake) as [-> Hagain].
    split; [done|]. intros x. simpl. by rewrite Hc, Hagain.
Qed.

Lemma takeN_removeSpaces p n :
  (∀ c, p c = true → JS.isSpace c = false) →
  ∀ s m r x,
    takeN p n s = Some (m, r) → removeSpaces (m +:+ x) = m +:+ removeSpaces x.
Proof.
  intros Hp. induction n as [|n IH]; intros s m r x; simpl.
  - by intros [= <- <-].
  - destruct s as [|c s]; [done|]. destruct (p c) eqn:Hc; [|done].
    destruct (takeN p n s) as [[m' r']|] eqn:Htake; [|done].
    intros [= <- <-]. simpl. rewrite (Hp c Hc).
    change (String c m' +:+ removeSpaces x) with (String c (m' +:+ removeSpaces x)).
    f_equal. by eapply IH.
Qed.

Lemma spanSpaces_removed : ∀ s spaces r x,
  spanSpaces s = (spaces, r) → removeSpaces (spaces +:+ x) = removeSpaces x.
Proof.
  induction s as [|c s IH]; intros spaces r x; simpl.
  - by intros [= <- <-].
  - destruct (JS.isSpace c) eqn:Hc.
    + destruct (spanSpaces s) as [m' r'] eqn:Hspan. intros [= <- <-].
      simpl. rewrite Hc. by eapply IH.
    + by intros [= <- <-].
Qed.

Lemma matchCourseAt_code s m :
  matchCourseAt s = Some m → courseCode (removeSpaces m) = true.
Proof.
  unfold matchCourseAt.
  destruct (takeN JS.isUpper 4 s) as [[letters r1]|] eqn:Hletters; [|done].
  destruct (spanSpaces r1) as [spaces r2] eqn:Hspaces.
  destruct (takeN JS.isDigit 3 r2) as [[digits r3]|] eqn:Hdigits; [|done].
  intros [= <-].
  rewrite (takeN_removeSpaces _ _ upper_not_space _ _ _ _ Hletters).
  rewrite (spanSpaces_removed _ _ _ _ Hspaces).
  rewrite (takeN_removeSpaces _ _ digit_not_space _ _ _ _ Hdigits).
  unfold courseCode.
  rewrite (proj2 (takeN_prefix _ _ _ _ _ Hletters)).
  rewrite (proj2 (takeN_prefix _ _ _ _ _ Hdigits)).
  destruct r3 as [|c r3]; [done|]. destruct (JS.isUpper c) eqn:Hc; [|done].
  simpl. by rewrite (upper_not_space c Hc).
Qed.

Lemma matchAllCourses_codes : ∀ s skip m,
  m ∈ matchAllCourses skip s → courseCode (removeSpaces m) = true.
Proof.
  induction s as [|c s IH]; intros skip m; simpl; [by intros ?%elem_of_nil|].
  destruct skip as [|skip]; [|by apply IH].
  destruct (matchCourseAt (String c s)) as [m'|] eqn:Hmatch; [|by apply IH].
  intros [-> | Hin]%elem_of_cons; [by eapply matchCourseAt_code|by eapply IH].
Qed.

Lemma matchAllCourses_skipped : ∀ s skip,
  (String.length s <= skip)%nat → matchAllCourses skip s = [].
Proof.
  induction s as [|c s IH]; intros skip Hlen; [done|].
  simpl in *. destruct skip as [|skip]; [lia|]. apply IH. lia.
Qed.

Lemma courseCode_no_space code_ :
  courseCode code_ = true → removeSpaces code_ = code_.
Proof.
  unfold courseCode.
  destruct (takeN JS.isUpper 4 code_) as [[letters r1]|] eqn:Hletters; [|done].
  destruct (takeN JS.isDigit 3 r1) as [[digits r2]|] eqn:Hdigits; [|done].
  intros Hsuffix.
  destruct (takeN_prefix _ _ _ _ _ Hletters) as [-> _].
  destruct (takeN_prefix _ _ _ _ _ Hdigits) as [-> _].
  rewrite (takeN_removeSpaces _ _ upper_not_space _ _ _ _ Hletters).
  rewrite (takeN_removeSpaces _ _ digit_not_space _ _ _ _ Hdigits).
  destruct r2 as [|c [|]]; [done| |done].
  simpl. by rewrite (upper_not_space c Hsuffix).
Qed.

(** X11.  Every prerequisite read from the catalog text is a normalised
    course code: four capital letters, three digits, at most one more
    capital letter, and no white space. *)
Theorem parsePrerequisites_codes (prereqString prereq : string) :
  prereq ∈ parsePrerequisites prereqString → courseCode prereq = true.
Proof.
  unfold parsePrerequisites. destruct (String.eqb prereqString EmptyString).
  - by intros ?%elem_of_nil.
  - intros (m & -> & Hin)%list_elem_of_fmap. by eapply matchAllCourses_codes.
Qed.

(** X12.  A text that is itself a normalised course code is read back as
    that one code. *)
Theorem parsePrerequisites_of_code (code_ : string) :
  courseCode code_ = true → parsePrerequisites code_ = [code_].
Proof.
  intros Hcode. pose proof (courseCode_no_space code_ Hcode) as Hclean.
  unfold courseCode in Hcode.
  destruct (takeN JS.isUpper 4 code_) as [[letters r1]|] eqn:Hletters; [|done].
  destruct (takeN JS.isDigit 3 r1) as [[digits r2]|] eqn:Hdigits; [|done].
  assert (Hmatch : matchCourseAt code_ = Some code_).
  { unfold matchCourseAt. rewrite Hletters.
    assert (Hspan : spanSpaces r1 = (EmptyString, r1)).
    { destruct r1 as [|c r1]; [done|]. simpl in *.
      destruct (JS.isDigit c) eqn:Hc; [|done]. by rewrite (digit_not_space c Hc). }
    rewrite Hspan, Hdigits.
    destruct (takeN_prefix _ _ _ _ _ Hletters) as [-> _].
    destruct (takeN_prefix _ _ _ _ _ Hdigits) as [-> _].
    destruct r2 as [|c [|]]; [done| |done]. by rewrite Hcode. }
  unfold parsePrerequisites.
  destruct code_ as [|c rest]; [done|].
  change (String.eqb (String c rest) EmptyString) with false. cbv iota.
  cbn [matchAllCourses]. rewrite Hmatch.
  rewrite matchAllCourses_skipped by (simpl; lia).
  by rewrite fmap_cons, Hclean.
Qed.

Lemma parsePrerequisites_of_code_witness : parsePrerequisites "CMSC131A" = ["CMSC131A"].
Proof. apply parsePrerequisites_of_code. reflexivity. Defined.

Lemma parsePrerequisites_codes_witness : courseCode "MATH140" = true.
Proof.
  apply (parsePrerequisites_codes "Prerequisite: MATH 140 or cmsc131.").
  vm_compute. apply list_elem_of_here.
Defined.

(** ** Warnings and the terms of the plan *)

Lemma warningsOf_empty_term cap sem :
  sp_courses sem = [] → sp_totalCredits sem = 0 →
  warningsOf cap sem = if cap <? 0 then [overloaded sem] else [].
Proof.
  intros Hcourses Htotal. unfold warningsOf. rewrite Hcourses, Htotal. simpl.
  by rewrite ?andb_false_r, app_nil_r.
Qed.

Lemma buildSemesters_empty_term availableSemesters courseSequence sem :
  sem ∈ buildSemesters availableSemesters courseSequence →
  ¬ (0 < length (sp_courses sem))%nat →
  sp_courses sem = [] ∧ sp_totalCredits sem = 0.
Proof.
  intros (semester & _ & _ & _ & _ & Htotal)%buildSemesters_elem Hempty.
  rewrite Htotal. destruct (sp_courses sem); [done|simpl in Hempty; lia].
Qed.

(** X13.  With a cap that is not negative, the warnings are exactly those
    of the terms of the returned plan, in order: the terms left out for
    having no course add none. *)
Theorem warnings_of_returned_terms fetch request plan :
  0 <= maxCreditsPerSemester request →
  generateGraduationPlan fetch request = Ok plan →
  gp_warnings plan = gp_semesters plan ≫= warningsOf (maxCreditsPerSemester request).
Proof.
  intros Hcap (startSemester & targetSemester & majors_ & _ & _ & _ & ->)
    %generateGraduationPlan_Ok.
  simpl. unfold generateWarnings.
  match goal with |- context [buildSemesters ?sems ?seq] =>
    pose proof (buildSemesters_empty_term sems seq) as Hempty;
    generalize dependent (buildSemesters sems seq)
  end.
  intros semesters Hempty.
  induction semesters as [|sem semesters IH]; [done|].
  rewrite filter_cons, bind_cons.
  rewrite IH by (intros sem' Hin; apply Hempty; by right).
  destruct (decide (0 < length (sp_courses sem))%nat) as [|Hnone]; [by rewrite bind_cons|].
  destruct (Hempty sem ltac:(by left) Hnone) as [Hcourses Htotal].
  rewrite (warningsOf_empty_term _ _ Hcourses Htotal).
  by rewrite (proj2 (Z.ltb_ge _ _) Hcap).
Qed.

Lemma warnings_of_returned_terms_witness :
  ∃ plan,
    generateGraduationPlan Scenario.catalog Scenario.calculus = Ok plan
    ∧ gp_warnings plan = gp_semesters plan ≫= warningsOf 15.
Proof.
  eexists. split; [vm_compute; reflexivity|].
  apply (warnings_of_returned_terms Scenario.catalog Scenario.calculus);
    [by vm_compute|vm_compute; reflexivity].
Defined.

Lemma string_app_assoc (a b c : string) : (a +:+ b) +:+ c = a +:+ (b +:+ c).
Proof.
  induction a as [|x a IH]; [done|].
  change (String x ((a +:+ b) +:+ c) = String x (a +:+ (b +:+ c))). by rewrite IH.
Qed.

(** X14.  With a negative cap the plan has no term at all, and yet every
    term from the start to the target is reported as overloaded with 0
    credits. *)
Theorem negative_cap_warns_every_term fetch request plan start target :
  maxCreditsPerSemester request < 0 →
  generateGraduationPlan fetch request = Ok plan →
  parseSemester (startingSemester request) = Ok start →
  parseSemester (graduationTarget request) = Ok target →
  gp_semesters plan = []
  ∧ gp_warnings plan
    = (λ semester,
         default "undefined" (season semester) +:+ " " +:+ pretty (year semester)
           +:+ ": Overloaded with 0 credits")
        <$> generateSemesterSequence start target.
Proof.
  intros Hcap (start' & target' & majors_ & Hstart' & Htarget' & _ & ->)
    %generateGraduationPlan_Ok Hstart Htarget.
  rewrite Hstart in Hstart'. rewrite Htarget in Htarget'.
  injection Hstart' as <-. injection Htarget' as <-.
  simpl. unfold courseSequenceOf.
  rewrite nothing_planned_without_capacity by lia.
  split; [apply no_courses_no_semesters|].
  unfold generateWarnings, buildSemesters.
  induction (generateSemesterSequence start target) as [|semester sems IH]; [done|].
  rewrite !fmap_cons, bind_cons, IH.
  unfold warningsOf at 1. simpl.
  change (sumCredits []) with 0.
  rewrite (proj2 (Z.ltb_lt _ _) Hcap). simpl. f_equal.
  unfold overloaded, semesterName. simpl.
  by rewrite !string_app_assoc.
Qed.

Lemma negative_cap_warns_every_term_witness :
  ∃ plan,
    generateGraduationPlan Scenario.catalog Cases.negativeCap = Ok plan
    ∧ gp_semesters plan = []
    ∧ gp_warnings plan
      = ["fall 2024: Overloaded with 0 credits";
         "spring 2025: Overloaded with 0 credits";
         "summer 2025: Overloaded with 0 credits"].
Proof.
  eexists. split; [vm_compute; reflexivity|].
  apply (negative_cap_warns_every_term Scenario.catalog Cases.negativeCap _
           {| ps_season := "fall"; ps_year := Some 2024 |}
           {| ps_season := "summer"; ps_year := Some 2025 |});
    [by vm_compute|vm_compute; reflexivity|reflexivity|reflexivity].
Defined.

(** X15.  The terms of the returned plan are terms of the sequence from
    the start to the target, in the order of that sequence and without
    repetition, and each of them has at least one course. *)
Theorem returned_terms_in_sequence_order fetch request plan start target :
  generateGraduationPlan fetch request = Ok plan →
  parseSemester (startingSemester request) = Ok start →
  parseSemester (graduationTarget request) = Ok target →
  sublist ((λ sem, (sp_semester sem, sp_year sem)) <$> gp_semesters plan)
    ((λ semester, (season semester, year semester))
       <$> generateSemesterSequence start target)
  ∧ NoDup ((λ sem, (sp_semester sem, sp_year sem)) <$> gp_semesters plan)
  ∧ Forall (λ sem, sp_courses sem ≠ []) (gp_semesters plan).
Proof.
  intros (start' & target' & majors_ & Hstart' & Htarget' & _ & ->)
    %generateGraduationPlan_Ok Hstart Htarget.
  rewrite Hstart in Hstart'. rewrite Htarget in Htarget'.
  injection Hstart' as <-. injection Htarget' as <-.
  simpl.
  assert (Hsub : sublist
            ((λ sem, (sp_semester sem, sp_year sem)) <$>
               filter (λ sem, (0 < length (sp_courses sem))%nat)
                 (buildSemesters (generateSemesterSequence start target)
                    (courseSequenceOf fetch
                       (allRequirementsOf majors_ (default [] (minors request)))
                       (completedCourses request)
                       (generateSemesterSequence start target)
                       (maxCreditsPerSemester request))))
            ((λ semester, (season semester, year semester))
               <$> generateSemesterSequence start target)).
  { etrans; [apply fmap_sublist, sublist_filter|].
    unfold buildSemesters. by rewrite <- !list_fmap_compose. }
  split_and!; [done| |].
  - eapply sublist_NoDup; [|exact Hsub].
    pose proof (semesterKeys_NoDup start target) as Hkeys.
    eapply (NoDup_fmap_1 (λ term : option string * Z,
                            default "undefined" term.1 +:+ " " +:+ pretty term.2)).
    rewrite <- list_fmap_compose. exact Hkeys.
  - apply Forall_forall. intros sem [Hcourses _]%list_elem_of_filter.
    intros Hnil. rewrite Hnil in Hcourses. simpl in Hcourses. lia.
Qed.

Lemma returned_terms_witness :
  ∃ plan,
    generateGraduationPlan Scenario.catalog Scenario.calculus = Ok plan
    ∧ Forall (λ sem, sp_courses sem ≠ []) (gp_semesters plan).
Proof.
  eexists. split; [vm_compute; reflexivity|].
  refine (proj2 (proj2 (returned_terms_in_sequence_order Scenario.catalog Scenario.calculus _
            {| ps_season := "fall"; ps_year := Some 2024 |}
            {| ps_season := "fall"; ps_year := Some 2025 |} _ _ _)));
    [vm_compute; reflexivity|reflexivity|reflexivity].
Defined.

(** ** The validator *)

Lemma unmet_none seen course :
  (0 <? Z.of_nat (length (unmetPrereqsOf seen course))) = false
  ↔ ∀ prereq, prereq ∈ default [] (sub_prerequisites course) → prereq ∈ seen.
Proof.
  unfold unmetPrereqsOf. destruct (sub_prerequisites course) as [prereqs|]; simpl.
  - rewrite Z.ltb_ge. split.
    + intros Hlen prereq Hin. destruct (decide (prereq ∈ seen)) as [|Hmissing]; [done|].
      assert (Hunmet : prereq ∈ filter (λ prereq, prereq ∉ seen) prereqs)
        by by apply list_elem_of_filter.
      destruct (filter _ prereqs); [by apply elem_of_nil in Hunmet|simpl in Hlen; lia].
    + intros Hall. rewrite filter_none; [done|].
      apply Forall_forall. intros prereq Hin Hmissing. by apply Hmissing, Hall.
  - split; [by intros _ prereq ?%elem_of_nil|done].
Qed.

Lemma prerequisitesMet_app l1 : ∀ seen l2,
  prerequisitesMet seen (l1 ++ l2)
  ↔ prerequisitesMet seen l1
    ∧ prerequisitesMet (list_to_set (sub_course_id <$> l1) ∪ seen) l2.
Proof.
  induction l1 as [|course l1 IH]; intros seen l2; simpl.
  - rewrite (left_id_L ∅ (∪)). tauto.
  - rewrite IH.
    replace (list_to_set (sub_course_id <$> l1) ∪ ({[sub_course_id course]} ∪ seen))
      with ({[sub_course_id course]} ∪ list_to_set (sub_course_id <$> l1) ∪ seen);
      [tauto|].
    apply set_eq. intros x. rewrite !elem_of_union. tauto.
Qed.

Lemma prerequisitesMet_spec l : ∀ seen,
  prerequisitesMet seen l
  ↔ ∀ before course after prereq,
      l = before ++ course :: after →
      prereq ∈ default [] (sub_prerequisites course) →
      prereq ∈ seen ∨ prereq ∈ sub_course_id <$> before.
Proof.
  induction l as [|first l IH]; intros seen; simpl.
  - split; [|done]. by intros _ [|] ? ? ? ?.
  - rewrite IH. split.
    + intros [Hfirst Hrest] [|first' before] course after prereq Hsplit Hprereq.
      * injection Hsplit as <- <-. left. by apply Hfirst.
      * injection Hsplit as <- ->.
        destruct (Hrest before course after prereq eq_refl Hprereq)
          as [[->%elem_of_singleton|?]%elem_of_union|?].
        -- right. rewrite fmap_cons. apply list_elem_of_here.
        -- by left.
        -- right. rewrite fmap_cons. by apply list_elem_of_further.
    + intros Hall. split.
      * intros prereq Hprereq.
        by destruct (Hall [] first l prereq eq_refl Hprereq) as [?|?%elem_of_nil].
      * intros before course after prereq -> Hprereq.
        destruct (Hall (first :: before) course after prereq eq_refl Hprereq)
          as [?|[-> | ?]%elem_of_cons].
        -- left. apply elem_of_union. by right.
        -- left. apply elem_of_union. left. by apply elem_of_singleton.
        -- by right.
Qed.

Lemma checkCourses_spec semester courses : ∀ st,
  let out := fold_left (checkCourse semester) courses st in
  out.2 = list_to_set (sub_course_id <$> courses) ∪ st.2
  ∧ (isValid out.1 = true ↔ isValid st.1 = true ∧ prerequisitesMet st.2 courses)
  ∧ (errors out.1 = [] ↔ errors st.1 = [] ∧ prerequisitesMet st.2 courses)
  ∧ warnings out.1 = warnings st.1
  ∧ suggestions out.1 = suggestions st.1.
Proof.
  induction courses as [|course courses IH]; intros st; simpl.
  - rewrite (left_id_L ∅ (∪)). tauto.
  - destruct (IH (checkCourse semester st course))
      as (Hseen & Hvalid & Herrors & Hwarnings & Hsuggestions).
    rewrite Hseen, Hvalid, Herrors, Hwarnings, Hsuggestions.
    pose proof (unmet_none st.2 course) as Hunmet.
    unfold checkCourse. simpl.
    destruct (0 <? Z.of_nat (length (unmetPrereqsOf st.2 course))); simpl.
    + split_and!; [|split|split|done|done].
      * apply set_eq. intros x. rewrite !elem_of_union. tauto.
      * by intros [? _].
      * intros (_ & Hmet & _). by apply Hunmet in Hmet.
      * intros [Hnil _]. by destruct (errors st.1).
      * intros (_ & Hmet & _). by apply Hunmet in Hmet.
    + pose proof (proj1 Hunmet eq_refl) as Hmet. split_and!; [|tauto..|done|done].
      apply set_eq. intros x. rewrite !elem_of_union. tauto.
Qed.

Lemma checkSemesters_spec semesters : ∀ st,
  let out := fold_left checkSemester semesters st in
  out.2 = list_to_set (sub_course_id <$> (semesters ≫= sub_courses)) ∪ st.2
  ∧ (isValid out.1 = true
     ↔ isValid st.1 = true ∧ prerequisitesMet st.2 (semesters ≫= sub_courses))
  ∧ (errors out.1 = []
     ↔ errors st.1 = [] ∧ prerequisitesMet st.2 (semesters ≫= sub_courses))
  ∧ warnings out.1 = warnings st.1
  ∧ suggestions out.1 = suggestions st.1.
Proof.
  induction semesters as [|semester semesters IH]; intros st; simpl.
  - rewrite (left_id_L ∅ (∪)). tauto.
  - destruct (IH (checkSemester st semester))
      as (Hseen & Hvalid & Herrors & Hwarnings & Hsuggestions).
    destruct (checkCourses_spec semester (sub_courses semester) st)
      as (Hseen1 & Hvalid1 & Herrors1 & Hwarnings1 & Hsuggestions1).
    fold (checkSemester st semester) in Hseen1, Hvalid1, Herrors1, Hwarnings1, Hsuggestions1.
    rewrite Hseen, Hvalid, Herrors, Hwarnings, Hsuggestions.
    rewrite Hseen1, Hvalid1, Herrors1, Hwarnings1, Hsuggestions1.
    rewrite prerequisitesMet_app, fmap_app, list_to_set_app_L.
    split_and!; [|tauto..|done|done].
    apply set_eq. intros x. rewrite !elem_of_union. tauto.
Qed.

Lemma validateGraduationPlan_spec semesters :
  let results := validateGraduationPlan semesters in
  (isValid results = true
   ↔ 120 <= total sub_totalCredits semesters
     ∧ prerequisitesMet ∅ (semesters ≫= sub_courses))
  ∧ (errors results = []
     ↔ 120 <= total sub_totalCredits semesters
       ∧ prerequisitesMet ∅ (semesters ≫= sub_courses))
  ∧ warnings results = semesters ≫= loadWarnings.
Proof.
  unfold validateGraduationPlan.
  match goal with |- context [fold_left checkSemester semesters ?st] =>
    destruct (checkSemesters_spec semesters st)
      as (_ & Hvalid & Herrors & Hwarnings & _);
    revert Hvalid Herrors Hwarnings;
    generalize (fold_left checkSemester semesters st).1
  end.
  intros checked. simpl. intros Hvalid Herrors Hwarnings.
  fold (total sub_totalCredits semesters).
  assert (Hshape : ∀ r : ValidationResults,
            let r' := if 8 <? Z.of_nat (length semesters)
                      then {| isValid := isValid r; errors := errors r;
                              warnings := warnings r;
                              suggestions :=
                                suggestions r
                                ++ ["Consider taking summer courses to reduce time to graduation"] |}
                      else r in
            isValid r' = isValid r ∧ errors r' = errors r ∧ warnings r' = warnings r).
  { intros r. simpl. by destruct (8 <? Z.of_nat (length semesters)). }
  destruct (Z.ltb_spec (total sub_totalCredits semesters) 120) as [Hfew|Henough].
  - destruct (Hshape (pushError (insufficientCredits (total sub_totalCredits semesters))
                        checked)) as (-> & -> & ->).
    simpl. split_and!; [split|split|done].
    + done.
    + lia.
    + intros Hnil. by destruct (errors checked).
    + lia.
  - destruct (Hshape checked) as (-> & -> & ->).
    rewrite Hvalid, Herrors. split_and!; [tauto|tauto|done].
Qed.

(** X16.  The validator calls a plan valid exactly when it reports no
    error. *)
Theorem valid_iff_no_error (semesters : list SubmittedSemester) :
  isValid (validateGraduationPlan semesters) = true
  ↔ errors (validateGraduationPlan semesters) = [].
Proof.
  destruct (validateGraduationPlan_spec semesters) as (-> & -> & _). tauto.
Qed.

(** X17.  The validator calls a plan valid exactly when the totals of its
    semesters add up to 120 credits or more and every prerequisite of
    every course is the identifier of a course listed earlier in the plan,
    be it in the same semester; the courses completed before the plan are
    not known to it. *)
Theorem valid_plan_characterised (semesters : list SubmittedSemester) :
  isValid (validateGraduationPlan semesters) = true
  ↔ 120 <= fold_left (λ total sem, total + sub_totalCredits sem) semesters 0
    ∧ ∀ before course after prereq,
        semesters ≫= sub_courses = before ++ course :: after →
        prereq ∈ default [] (sub_prerequisites course) →
        prereq ∈ sub_course_id <$> before.
Proof.
  destruct (validateGraduationPlan_spec semesters) as (-> & _ & _).
  rewrite prerequisitesMet_spec. fold (total sub_totalCredits semesters).
  split; intros [Hcredits Hmet]; (split; [done|]).
  - intros before course after prereq Hsplit Hprereq.
    by destruct (Hmet before course after prereq Hsplit Hprereq) as [?%elem_of_empty|?].
  - intros before course after prereq Hsplit Hprereq. right. by eapply Hmet.
Qed.

Lemma submitted_courses (semesters : list SemesterPlan) :
  (submitted <$> semesters) ≫= sub_courses
  = submittedCourse <$> (semesters ≫= sp_courses).
Proof.
  induction semesters as [|sem semesters IH]; [done|].
  by rewrite fmap_cons, !bind_cons, fmap_app, IH.
Qed.

(** X18.  Generation followed by validation: the validator calls a
    generated plan valid exactly when the credits of its semesters, without
    those of the completed courses, reach 120 and no course of the plan
    has a prerequisite among the completed courses. *)
Theorem generated_plan_validity fetch request plan :
  generateGraduationPlan fetch request = Ok plan →
  isValid (validateGraduationPlan (submitted <$> gp_semesters plan)) = true
  ↔ 120 <= fold_left (λ acc sem, acc + sp_totalCredits sem) (gp_semesters plan) 0
    ∧ ∀ course prereq,
        course ∈ gp_semesters plan ≫= sp_courses →
        prereq ∈ pc_prerequisites course →
        prereq ∉ cc_course_id <$> completedCourses request.
Proof.
  intros Hplan.
  destruct (plan_courses _ _ _ Hplan) as (start & target & majors_ & _ & Hcourses).
  destruct (validateGraduationPlan_spec (submitted <$> gp_semesters plan)) as (-> & _ & _).
  rewrite prerequisitesMet_spec, submitted_courses, Hcourses, total_fmap.
  change (total (sub_totalCredits ∘ submitted) (gp_semesters plan))
    with (fold_left (λ acc sem, acc + sp_totalCredits sem) (gp_semesters plan) 0).
  set (courseSequence := courseSequenceOf fetch _ _ _ _).
  split; intros [Hcredits Hmet]; (split; [done|]).
  - intros course prereq (placed & -> & Hplaced)%list_elem_of_fmap Hprereq Hcompleted.
    apply list_elem_of_split in Hplaced as (before & after & Hsplit).
    destruct (Hmet (submittedCourse <$> (toPlannedCourse <$> before))
                (submittedCourse (toPlannedCourse placed))
                (submittedCourse <$> (toPlannedCourse <$> after)) prereq)
      as [Hnone|Hbefore].
    + by rewrite Hsplit, !fmap_app, !fmap_cons.
    + done.
    + by apply elem_of_empty in Hnone.
    + rewrite <- !list_fmap_compose in Hbefore.
      apply list_elem_of_fmap in Hbefore as (earlier & -> & Hearlier).
      refine (courseSequence_fresh fetch
                (allRequirementsOf majors_ (default [] (minors request)))
                (completedCourses request) (generateSemesterSequence start target)
                (maxCreditsPerSemester request) earlier _ Hcompleted).
      fold courseSequence. rewrite Hsplit. apply elem_of_app. by left.
  - intros before course after prereq Hsplit Hprereq. right.
    apply fmap_app_inv in Hsplit as (before1 & rest1 & -> & Hrest1 & Hsplit).
    symmetry in Hrest1.
    apply fmap_cons_inv in Hrest1 as (course1 & after1 & -> & -> & ->).
    apply fmap_app_inv in Hsplit as (before2 & rest2 & -> & Hrest2 & Hsplit).
    symmetry in Hrest2.
    apply fmap_cons_inv in Hrest2 as (course2 & after2 & -> & -> & ->).
    simpl in Hprereq. unfold courseSequence, courseSequenceOf in Hsplit.
    destruct (prerequisites_planned_before _ _ _ _ _ _ _ _ prereq Hsplit Hprereq)
      as [Hcompleted|Hbefore].
    + exfalso. apply (Hmet (toPlannedCourse course2) prereq); [|done..].
      apply list_elem_of_fmap. exists course2. split; [done|].
      unfold courseSequence, courseSequenceOf. rewrite Hsplit.
      apply elem_of_app. right. apply list_elem_of_here.
    + by rewrite <- !list_fmap_compose.
Qed.

Lemma generated_plan_validity_witness :
  ∃ plan,
    generateGraduationPlan Scenario.catalog Scenario.fiveCourses = Ok plan
    ∧ isValid (validateGraduationPlan (submitted <$> gp_semesters plan)) = false.
Proof.
  eexists. split; [vm_compute; reflexivity|].
  apply not_true_is_false.
  intros [Hcredits _]%(generated_plan_validity Scenario.catalog Scenario.fiveCourses);
    [|vm_compute; reflexivity].
  vm_compute in Hcredits. by apply Hcredits.
Defined.

(** ** The fields of the exported table *)

Lemma string_app_cons c (x y : string) : String c x +:+ y = String c (x +:+ y).
Proof. reflexivity. Qed.

Lemma doubleQuotes_inj : ∀ a b,
  doubleQuotes a +:+ String quote EmptyString
  = doubleQuotes b +:+ String quote EmptyString →
  a = b.
Proof.
  induction a as [|x a IH]; intros [|y b]; simpl; [done|..].
  - destruct (Ascii.eqb_spec y quote) as [->|Hy]; rewrite !string_app_cons.
    + by intros [=].
    + intros [= Hq]. by destruct Hy.
  - destruct (Ascii.eqb_spec x quote) as [->|Hx]; rewrite !string_app_cons.
    + by intros [=].
    + intros [= Hq]. by destruct Hx.
  - destruct (Ascii.eqb_spec x quote) as [->|Hx], (Ascii.eqb_spec y quote) as [->|Hy];
      rewrite !string_app_cons.
    + intros [= Hrest]. by rewrite (IH b Hrest).
    + intros [= Hq]. by destruct Hy.
    + intros [= Hq]. by destruct Hx.
    + intros [= -> Hrest]. by rewrite (IH b Hrest).
Qed.

Lemma escapeCSV_quoted value rest :
  value = String quote rest → includes quote value = true.
Proof. by intros ->. Qed.

Lemma escapeCSV_cases (value : string) :
  escapeCSV (Some value)
  = String quote (doubleQuotes value +:+ String quote EmptyString)
  ∨ (includes quote value = false ∧ escapeCSV (Some value) = value).
Proof.
  destruct value as [|x rest]; [by right|].
  set (value := String x rest). unfold escapeCSV. fold value.
  destruct (includes quote value).
  - left. by rewrite orb_true_r.
  - rewrite orb_false_r.
    destruct (includes ","%char value || includes newline value); [by left|by right].
Qed.

(** X19.  Two different texts never give the same field in the exported
    table: quoting loses nothing. *)
Theorem escapeCSV_distinct (a b : string) :
  a ≠ b → escapeCSV (Some a) ≠ escapeCSV (Some b).
Proof.
  intros Hdiff Hsame. apply Hdiff. clear Hdiff.
  destruct (escapeCSV_cases a) as [Ha|[Hplain_a Ha]],
    (escapeCSV_cases b) as [Hb|[Hplain_b Hb]];
    rewrite Ha, Hb in Hsame.
  - injection Hsame as Hsame. by apply doubleQuotes_inj.
  - symmetry in Hsame. apply escapeCSV_quoted in Hsame. congruence.
  - apply escapeCSV_quoted in Hsame. congruence.
  - done.
Qed.

Lemma escapeCSV_distinct_witness :
  escapeCSV (Some "Calculus I, honors") ≠ escapeCSV (Some "Calculus I").
Proof. by apply escapeCSV_distinct. Defined.

(** ** The course endpoint and its cache *)

Lemma keysToDelete_elem now (courseCache : gmap string CourseApi.CacheEntry) key :
  key ∈ CourseApi.keysToDelete now courseCache
  ↔ ∃ entry,
      courseCache !! key = Some entry
      ∧ CourseApi.CACHE_DURATION < now - CourseApi.timestamp entry.
Proof.
  unfold CourseApi.keysToDelete. rewrite list_elem_of_fmap. split.
  - intros ([key' entry] & -> & [Hold Hin%elem_of_map_to_list]%list_elem_of_filter).
    by exists entry.
  - intros (entry & Hin & Hold). exists (key, entry). split; [done|].
    apply list_elem_of_filter. split; [done|]. by apply elem_of_map_to_list.
Qed.

Lemma cleanupCache_lookup now (courseCache : gmap string CourseApi.CacheEntry) key entry :
  CourseApi.cleanupCache now courseCache !! key = Some entry
  ↔ courseCache !! key = Some entry
    ∧ now - CourseApi.timestamp entry <= CourseApi.CACHE_DURATION.
Proof.
  unfold CourseApi.cleanupCache.
  rewrite lookup_foldr_delete_Some, keysToDelete_elem. split.
  - intros [Hkept Hin]. split; [done|].
    destruct (Z.le_gt_cases (now - CourseApi.timestamp entry) CourseApi.CACHE_DURATION)
      as [|Hold]; [done|].
    exfalso. apply Hkept. exists entry. split; [done|lia].
  - intros [Hin Hfresh]. split; [|done].
    intros (entry' & Hin' & Hold). rewrite Hin in Hin'. injection Hin' as <-. lia.
Qed.

Lemma handler_miss fetch fetchCourseSections clock id
    (courseCache : gmap string CourseApi.CacheEntry) :
  id ≠ EmptyString →
  (∀ cached,
     courseCache !! id = Some cached →
     CourseApi.CACHE_DURATION <= CourseApi.atCheck clock - CourseApi.timestamp cached) →
  CourseApi.handler fetch fetchCourseSections clock
    {| CourseApi.method := "GET"; CourseApi.courseId := Some id |} courseCache
  = CourseApi.refresh fetch fetchCourseSections clock id courseCache.
Proof.
  intros Hid Hmiss. unfold CourseApi.handler. simpl.
  destruct id as [|c id]; [done|].
  destruct (courseCache !! String c id) as [cached|] eqn:Hcached; [|done].
  by rewrite (proj2 (Z.ltb_ge _ _) (Hmiss cached eq_refl)).
Qed.

(** X20.  A course looked up once is answered from the cache afterwards:
    when a request finds no entry of the course less than thirty minutes
    old, its answer is the one computed from the catalog, and a second
    request less than thirty minutes after the entry was stored gets the
    same answer whatever the catalog says then, and leaves the cache as it
    is. *)
Theorem repeated_request_served_from_cache fetch1 sections1 fetch2 sections2
    clock1 clock2 id (courseCache : gmap string CourseApi.CacheEntry) :
  id ≠ EmptyString →
  (∀ cached,
     courseCache !! id = Some cached →
     CourseApi.CACHE_DURATION <= CourseApi.atCheck clock1 - CourseApi.timestamp cached) →
  CourseApi.atCleanup clock1 - CourseApi.atStore clock1 <= CourseApi.CACHE_DURATION →
  CourseApi.atCheck clock2 - CourseApi.atStore clock1 < CourseApi.CACHE_DURATION →
  let req := {| CourseApi.method := "GET"; CourseApi.courseId := Some id |} in
  let first := CourseApi.handler fetch1 sections1 clock1 req courseCache in
  first.1 = CourseApi.found (CourseApi.fetchCourseFromUMDAPI fetch1 sections1 id)
  ∧ CourseApi.handler fetch2 sections2 clock2 req first.2 = first.
Proof.
  intros Hid Hmiss Hcleanup Hsoon req first. unfold first, req.
  rewrite handler_miss by done. unfold CourseApi.refresh. simpl. split; [done|].
  set (courseInfo := CourseApi.fetchCourseFromUMDAPI fetch1 sections1 id).
  set (entry := {| CourseApi.data := courseInfo;
                   CourseApi.timestamp := CourseApi.atStore clock1 |}).
  set (cache1 := CourseApi.cleanupCache (CourseApi.atCleanup clock1)
                   (<[id := entry]> courseCache)).
  assert (Hstored : cache1 !! id = Some entry).
  { apply cleanupCache_lookup. split; [by rewrite lookup_insert_eq|done]. }
  unfold CourseApi.handler. simpl. destruct id as [|c id]; [done|].
  rewrite Hstored. simpl.
  by rewrite (proj2 (Z.ltb_lt _ _) Hsoon).
Qed.

Lemma repeated_request_witness :
  let clock1 := {| CourseApi.atCheck := 0; CourseApi.atStore := 5;
                   CourseApi.atCleanup := 6 |} in
  let clock2 := {| CourseApi.atCheck := 1000000; CourseApi.atStore := 1000005;
                   CourseApi.atCleanup := 1000006 |} in
  let req := {| CourseApi.method := "GET"; CourseApi.courseId := Some "MATH140" |} in
  let first := CourseApi.handler (λ _, CourseApi.NotOk) (λ _, []) clock1 req ∅ in
  first.1 = CourseApi.found (CourseApi.basicInfo "MATH140")
  ∧ CourseApi.handler (λ _, CourseApi.Throws) (λ _, []) clock2 req first.2 = first.
Proof.
  apply (repeated_request_served_from_cache (λ _, CourseApi.NotOk) (λ _, [])
           (λ _, CourseApi.Throws) (λ _, [])
           {| CourseApi.atCheck := 0; CourseApi.atStore := 5; CourseApi.atCleanup := 6 |}
           {| CourseApi.atCheck := 1000000; CourseApi.atStore := 1000005;
              CourseApi.atCleanup := 1000006 |} "MATH140" ∅);
    [done|by intros cached ?|by vm_compute|by vm_compute].
Defined.

(** X21.  After a request that had to ask the catalog, the cache holds
    the new entry of the course, keeps the entries of the other courses
    that are at most thirty minutes old exactly as they were, and holds
    nothing else. *)
Theorem cache_after_refresh fetch sections clock id
    (courseCache : gmap string CourseApi.CacheEntry) key entry :
  id ≠ EmptyString →
  (∀ cached,
     courseCache !! id = Some cached →
     CourseApi.CACHE_DURATION <= CourseApi.atCheck clock - CourseApi.timestamp cached) →
  (CourseApi.handler fetch sections clock
     {| CourseApi.method := "GET"; CourseApi.courseId := Some id |} courseCache).2
    !! key = Some entry
  ↔ CourseApi.atCleanup clock - CourseApi.timestamp entry <= CourseApi.CACHE_DURATION
    ∧ ((key = id
        ∧ entry = {| CourseApi.data := CourseApi.fetchCourseFromUMDAPI fetch sections id;
                     CourseApi.timestamp := CourseApi.atStore clock |})
       ∨ (key ≠ id ∧ courseCache !! key = Some entry)).
Proof.
  intros Hid Hmiss. rewrite handler_miss by done. unfold CourseApi.refresh. simpl.
  rewrite cleanupCache_lookup, lookup_insert_Some. split.
  - intros [[[<- <-]|[Hother Hkept]] Hfresh]; (split; [done|]); [by left|right].
    split; [by intros ->|done].
  - intros [Hfresh [[-> ->]|[Hother Hkept]]]; (split; [|done]); [by left|right].
    split; [by intros ->|done].
Qed.

Lemma cache_after_refresh_witness :
  (CourseApi.handler (λ _, CourseApi.NotOk) (λ _, [])
     {| CourseApi.atCheck := 0; CourseApi.atStore := 5; CourseApi.atCleanup := 6 |}
     {| CourseApi.method := "GET"; CourseApi.courseId := Some "MATH140" |} ∅).2
    !! "MATH140"
  = Some {| CourseApi.data := CourseApi.basicInfo "MATH140"; CourseApi.timestamp := 5 |}.
Proof.
  apply (cache_after_refresh (λ _, CourseApi.NotOk) (λ _, [])
           {| CourseApi.atCheck := 0; CourseApi.atStore := 5; CourseApi.atCleanup := 6 |}
           "MATH140" ∅); [done|by intros cached ?|].
  split; [by vm_compute|]. by left.
Defined.

(** X23.  Whenever the planner has a record of a course, the
    prerequisites in it are those the course endpoint computes from the
    same answer of the catalog. *)
Theorem endpoints_agree_on_prerequisites fetch sections courseIds id record :
  fetchCourseInformation (CourseApi.asPlannerReads ∘ fetch) courseIds !! id = Some record →
  ci_prerequisites record
  = CourseApi.prerequisites (CourseApi.fetchCourseFromUMDAPI fetch sections id).
Proof.
  rewrite fetchCourseInformation_lookup. case_decide; [|done].
  unfold storedRecord, CourseApi.fetchCourseFromUMDAPI. simpl.
  destruct (fetch id) as [| | |course]; simpl; try done.
  - by intros [= <-].
  - intros [= <-]. simpl.
    by destruct (CourseApi.umd_relationships course) as [relationships|].
Qed.

Lemma endpoints_agree_witness :
  ["MATH140"]
  = CourseApi.prerequisites
      (CourseApi.fetchCourseFromUMDAPI
         (λ _, CourseApi.Course
                 {| CourseApi.umd_course_id := Some "MATH141";
                    CourseApi.umd_name := Some "Calculus II";
                    CourseApi.umd_description := None;
                    CourseApi.umd_credits := Some "4";
                    CourseApi.umd_relationships :=
                      Some {| CourseApi.prereqs := Some "MATH 140";
                              CourseApi.coreqs := None;
                              CourseApi.rel_restrictions := None |} |})
         (λ _, []) "MATH141").
Proof.
  by apply (endpoints_agree_on_prerequisites _ (λ _, []) ["MATH141"] "MATH141"
              {| ci_course_id := "MATH141"; ci_name := "Calculus II"; ci_credits := 4;
                 ci_prerequisites := ["MATH140"]; ci_description := EmptyString |}).
Defined.

(** ** The restrictions of a course *)

Lemma splitOn_no_separator c : ∀ s piece,
  piece ∈ CourseApi.splitOn c s → includes c piece = false.
Proof.
  induction s as [|x s IH]; intros piece; simpl.
  - by intros ->%list_elem_of_singleton.
  - destruct (Ascii.eqb x c) eqn:Hx.
    + intros [-> | Hin]%elem_of_cons; [done|by apply IH].
    + destruct (CourseApi.splitOn c s) as [|first pieces].
      * intros ->%list_elem_of_singleton. simpl. by rewrite Hx.
      * intros [-> | Hin]%elem_of_cons.
        -- simpl. rewrite Hx. apply IH. by left.
        -- apply IH. by right.
Qed.

Lemma skipSpaces_includes c : ∀ s,
  includes c s = false → includes c (JS.skipSpaces s) = false.
Proof.
  induction s as [|x s IH]; [done|]. simpl.
  intros [Hx Hs]%orb_false_iff. destruct (JS.isSpace x); [by apply IH|].
  simpl. by rewrite Hx, Hs.
Qed.

Lemma trimEnd_includes c : ∀ s,
  includes c s = false → includes c (CourseApi.trimEnd s) = false.
Proof.
  induction s as [|x s IH]; [done|]. simpl.
  intros [Hx Hs]%orb_false_iff. specialize (IH Hs).
  destruct (CourseApi.trimEnd s) as [|y r].
  - destruct (JS.isSpace x); [done|]. simpl. by rewrite Hx.
  - simpl in *. by rewrite Hx, IH.
Qed.

Lemma trimEnd_idempotent : ∀ s,
  CourseApi.trimEnd (CourseApi.trimEnd s) = CourseApi.trimEnd s.
Proof.
  induction s as [|x s IH]; [done|]. simpl.
  destruct (CourseApi.trimEnd s) as [|y r] eqn:Hs.
  - destruct (JS.isSpace x) eqn:Hx; [done|]. simpl. by rewrite Hx.
  - change (CourseApi.trimEnd (String x (String y r))) with
      (match CourseApi.trimEnd (String y r) with
       | EmptyString => if JS.isSpace x then EmptyString else String x EmptyString
       | r' => String x r'
       end).
    by rewrite IH.
Qed.

Lemma trimEnd_head x s :
  JS.isSpace x = false →
  ∃ r, CourseApi.trimEnd (String x s) = String x r.
Proof.
  intros Hx. simpl. destruct (CourseApi.trimEnd s) as [|y r]; [|by eexists].
  rewrite Hx. by eexists.
Qed.

Lemma skipSpaces_head : ∀ s,
  JS.skipSpaces s = EmptyString
  ∨ ∃ x r, JS.skipSpaces s = String x r ∧ JS.isSpace x = false.
Proof.
  induction s as [|x s IH]; [by left|]. simpl.
  destruct (JS.isSpace x) eqn:Hx; [done|]. right. by exists x, s.
Qed.

Lemma trim_idempotent s : CourseApi.trim (CourseApi.trim s) = CourseApi.trim s.
Proof.
  unfold CourseApi.trim.
  destruct (skipSpaces_head s) as [->|(x & r & -> & Hx)]; [done|].
  destruct (trimEnd_head x r Hx) as [r' Hr']. rewrite Hr' at 1.
  simpl JS.skipSpaces. rewrite Hx, <- Hr'. apply trimEnd_idempotent.
Qed.

(** X24.  Every restriction that the course endpoint reports is a text
    that is not empty, holds no comma and neither starts nor ends with
    white space. *)
Theorem restrictions_are_trimmed (restrictionString restriction : string) :
  restriction ∈ CourseApi.parseRestrictions restrictionString →
  restriction ≠ EmptyString
  ∧ includes ","%char restriction = false
  ∧ CourseApi.trim restriction = restriction.
Proof.
  unfold CourseApi.parseRestrictions.
  destruct (String.eqb restrictionString EmptyString); [by intros ?%elem_of_nil|].
  intros [Hlen (piece & -> & Hpiece)%list_elem_of_fmap]%list_elem_of_filter.
  split_and!.
  - intros Hempty. rewrite Hempty in Hlen. simpl in Hlen. lia.
  - unfold CourseApi.trim.
    by apply trimEnd_includes, skipSpaces_includes, (splitOn_no_separator _ restrictionString).
  - apply trim_idempotent.
Qed.

Lemma restrictions_are_trimmed_witness :
  CourseApi.parseRestrictions " Permission of department , ,must be in CMSC "
  = ["Permission of department"; "must be in CMSC"]
  ∧ CourseApi.trim "must be in CMSC" = "must be in CMSC".
Proof.
  split; [by vm_compute|].
  apply (restrictions_are_trimmed " Permission of department , ,must be in CMSC ").
  vm_compute. apply list_elem_of_further, list_elem_of_here.
Defined.

(** ** The plan editor *)

Lemma toInt32_add_l x y : GradPlan.toInt32 (GradPlan.toInt32 x + y) = GradPlan.toInt32 (x + y).
Proof.
  unfold GradPlan.toInt32. f_equal.
  replace ((x + 2 ^ 31) mod 2 ^ 32 - 2 ^ 31 + y + 2 ^ 31)
    with ((x + 2 ^ 31) mod 2 ^ 32 + y) by lia.
  rewrite Zplus_mod_idemp_l. f_equal. lia.
Qed.

Lemma toInt32_mul_l x k : GradPlan.toInt32 (GradPlan.toInt32 x * k) = GradPlan.toInt32 (x * k).
Proof.
  unfold GradPlan.toInt32. f_equal.
  replace (((x + 2 ^ 31) mod 2 ^ 32 - 2 ^ 31) * k + 2 ^ 31)
    with ((x + 2 ^ 31) mod 2 ^ 32 * k + (2 ^ 31 - 2 ^ 31 * k)) by lia.
  rewrite <- Zplus_mod_idemp_l, Zmult_mod_idemp_l, Zplus_mod_idemp_l. f_equal. lia.
Qed.

Lemma toInt32_range z : - 2 ^ 31 <= GradPlan.toInt32 z < 2 ^ 31.
Proof.
  unfold GradPlan.toInt32.
  pose proof (Z.mod_pos_bound (z + 2 ^ 31) (2 ^ 32) ltac:(lia)). lia.
Qed.

Lemma hashStep_spec a b : GradPlan.hashStep a b = GradPlan.toInt32 (31 * a + JS.code b).
Proof.
  unfold GradPlan.hashStep, GradPlan.shiftLeft5.
  replace (GradPlan.toInt32 (GradPlan.toInt32 a * 2 ^ 5) - a + JS.code b)
    with (GradPlan.toInt32 (GradPlan.toInt32 a * 2 ^ 5) + (JS.code b - a)) by lia.
  rewrite toInt32_mul_l, toInt32_add_l. f_equal. lia.
Qed.

Lemma hashFrom_polynomial : ∀ label a a',
  a = GradPlan.toInt32 a' →
  GradPlan.hashFrom a label = GradPlan.toInt32 (polynomialFrom a' label).
Proof.
  induction label as [|b rest IH]; intros a a' Ha; simpl; [done|].
  apply IH. rewrite hashStep_spec, Ha.
  replace (31 * GradPlan.toInt32 a' + JS.code b)
    with (GradPlan.toInt32 a' * 31 + JS.code b) by lia.
  rewrite <- toInt32_add_l, toInt32_mul_l, toInt32_add_l. f_equal. lia.
Qed.


(** X26.  The hash of a label is the polynomial with factor 31 over its
    character codes, wrapped once to 32 bits: wrapping after every
    character changes nothing. *)
Theorem requirement_hash_is_polynomial (label : string) :
  GradPlan.hashFrom 0 label = GradPlan.toInt32 (polynomialFrom 0 label)
  ∧ - 2 ^ 31 <= GradPlan.hashFrom 0 label < 2 ^ 31.
Proof.
  rewrite (hashFrom_polynomial label 0 0) by done. split; [done|apply toInt32_range].
Qed.

(** X27.  The editor adds semesters in the order of the planner: after a
    last semester whose season reads spring, summer or fall in any
    capitals, the semester added is the term that follows it in the walk
    of the planner, empty and named by season and year; the credits of
    the plan stay as they are. *)
Theorem added_semester_follows_planner_order thisYear plan lastSemester text (term : Term) :
  last (GradPlan.semesters plan) = Some lastSemester →
  GradPlan.semester lastSemester = Some text →
  JS.toLowerCase text = seasonName (term_season term) →
  GradPlan.year lastSemester = term_year term →
  ∃ added,
    GradPlan.addSemester true thisYear plan = Ok added
    ∧ GradPlan.semesters added
      = GradPlan.semesters plan
        ++ [ {| GradPlan.id :=
                  Some (seasonName (term_season (nextTerm term)) +:+ "-"
                          +:+ pretty (term_year (nextTerm term)));
                GradPlan.semester := Some (seasonName (term_season (nextTerm term)));
                GradPlan.year := term_year (nextTerm term);
                GradPlan.courses := [];
                GradPlan.totalCredits := 0 |} ]
    ∧ GradPlan.planCredits added = GradPlan.planCredits plan.
Proof.
  intros Hlast Htext Hseason Hyear.
  unfold GradPlan.addSemester, GradPlan.nextSemester. simpl.
  rewrite Hlast, Htext, Hseason, seasons_indexOf_name, Hyear.
  destruct term as [[] termYear]; simpl; eexists; split_and!; reflexivity.
Qed.

Lemma added_semester_witness :
  ∃ added,
    GradPlan.addSemester true 2026
      {| GradPlan.semesters :=
           [ {| GradPlan.id := None; GradPlan.semester := Some "Fall";
                GradPlan.year := 2024; GradPlan.courses := [];
                GradPlan.totalCredits := 0 |} ];
         GradPlan.majors := []; GradPlan.minors := [];
         GradPlan.planCredits := 0; GradPlan.warnings := [] |} = Ok added
    ∧ GradPlan.id <$> GradPlan.semesters added = [None; Some "spring-2025"].
Proof.
  destruct (added_semester_follows_planner_order 2026
              {| GradPlan.semesters :=
                   [ {| GradPlan.id := None; GradPlan.semester := Some "Fall";
                        GradPlan.year := 2024; GradPlan.courses := [];
                        GradPlan.totalCredits := 0 |} ];
                 GradPlan.majors := []; GradPlan.minors := [];
                 GradPlan.planCredits := 0; GradPlan.warnings := [] |}
              _ "Fall" {| term_season := Fall; term_year := 2024 |}
              eq_refl eq_refl eq_refl eq_refl) as (added & Hadded & Hsemesters & _).
  exists added. split; [exact Hadded|]. rewrite Hsemesters. by vm_compute.
Defined.

(** X28.  Adding a semester and removing it again gives back the list of
    semesters, provided no semester of the plan has the identifier of the
    new one; the credits of the plan are then the sum of the totals of
    its semesters. *)
Theorem add_then_remove_semester thisYear plan newSeason newYear :
  GradPlan.nextSemester thisYear (last (GradPlan.semesters plan)) = Ok (newSeason, newYear) →
  (∀ sem, sem ∈ GradPlan.semesters plan →
     GradPlan.id sem ≠ Some (GradPlan.semesterId newSeason newYear)) →
  ∃ added,
    GradPlan.addSemester true thisYear plan = Ok added
    ∧ GradPlan.semesters
        (GradPlan.removeSemester true (GradPlan.semesterId newSeason newYear) added)
      = GradPlan.semesters plan
    ∧ GradPlan.planCredits
        (GradPlan.removeSemester true (GradPlan.semesterId newSeason newYear) added)
      = fold_left (λ sum sem, sum + GradPlan.totalCredits sem) (GradPlan.semesters plan) 0.
Proof.
  intros Hnext Hfresh. unfold GradPlan.addSemester. simpl. rewrite Hnext.
  eexists. split; [reflexivity|].
  unfold GradPlan.removeSemester. simpl.
  assert (Hkept : filter (λ s, GradPlan.id s ≠ Some (GradPlan.semesterId newSeason newYear))
                    (GradPlan.semesters plan ++ [GradPlan.emptySemester newSeason newYear])
                  = GradPlan.semesters plan).
  { rewrite filter_app, filter_all by by apply Forall_forall.
    rewrite filter_cons_False by (simpl; by intros Hne).
    by rewrite filter_nil, app_nil_r. }
  by rewrite Hkept.
Qed.

Lemma add_then_remove_witness :
  ∃ added,
    GradPlan.addSemester true 2026
      {| GradPlan.semesters := []; GradPlan.majors := []; GradPlan.minors := [];
         GradPlan.planCredits := 17; GradPlan.warnings := [] |} = Ok added
    ∧ GradPlan.planCredits (GradPlan.removeSemester true "fall-2026" added) = 0.
Proof.
  destruct (add_then_remove_semester 2026
              {| GradPlan.semesters := []; GradPlan.majors := []; GradPlan.minors := [];
                 GradPlan.planCredits := 17; GradPlan.warnings := [] |}
              (Some "fall") 2026 eq_refl) as (added & Hadded & _ & Hcredits).
  { by intros sem ?%elem_of_nil. }
  exists added. split; [exact Hadded|exact Hcredits].
Defined.
